(** * wagtail-localize-pontoon: the synchronisation engine

    A shallow embedding of [wagtail_localize_pontoon/sync.py] (the pull and
    push reconcilers, translation propagation and the [SyncManager]) and of
    the pull handler of [management/commands/sync_pontoon.py].

    The Python code is effectful: it talks to the Django ORM, to a git
    repository, to [polib] and to the logger, and it raises and catches
    exceptions.  The embedding threads one explicit [World] through a small
    state-and-exception monad.  The collaborators whose code is not part of
    the two source files (the repository adapter, the PO codec, the resource
    catalogue) are parameters, bundled in type classes. *)

From Stdlib Require Import Ascii String.
From stdpp Require Import base option list sorting gmap strings fin_maps.

Local Open Scope string_scope.
Local Open Scope stdpp_scope.
Local Open Scope list_scope.

(** ** Exceptions *)

(** The exception classes that the two source files raise, catch or let
    through.  An exception value is identified with its class. *)
Inductive exn : Type :=
  | KeyError
  | OSError                     (* polib: "Syntax error in po file" (IOError) *)
  | UnicodeDecodeError
  | AttributeError
  | UnboundLocalError
  | ParentNotTranslatedError
  | DoesNotExist                (* Segment.DoesNotExist *)
  | UnrecognizedFileError
  | OtherError (name : string).

#[global] Instance exn_eq_dec : EqDecision exn.
Proof. solve_decision. Defined.

(** ** Rows of the tables *)

Definition CommitId := string.
Definition Filename := string.
Definition Time := nat.

Inductive Action : Type := ACTION_PUSH | ACTION_PULL.

#[global] Instance Action_eq_dec : EqDecision Action.
Proof. solve_decision. Defined.

(** Modelled from the spec: [models.py] is not among the source files.  A
    SyncLog row has an action kind, a commit identity (the empty string
    when unset) and a timestamp set on creation. *)
Record PontoonSyncLog : Type := mkSyncLog {
  log_id : nat;
  action : Action;
  commit_id : CommitId;
  time : Time;
}.

(** Modelled from the spec: the join row between a log entry and the
    (resource, language) pair it touched; a push leaves the language unset. *)
Record PontoonSyncLogResource : Type := mkSyncLogResource {
  slr_log : nat;
  slr_resource : nat;
  slr_language : option nat;
}.

(** Modelled from the spec: a resource with its path and the identity of
    its current content revision.  [page_title] stands for
    [resource.page.title], which the code only logs. *)
Record PontoonResource : Type := mkResource {
  resource_id : nat;
  path : string;
  current_revision_id : nat;
  page_title : string;
}.

(** Modelled from the spec: a submission, its resource and revision, and
    the two push fields, [None] until it has been pushed. *)
Record PontoonResourceSubmission : Type := mkSubmission {
  submission_id : nat;
  sub_resource_id : nat;
  revision_id : nat;
  pushed_at : option Time;
  push_log : option nat;
}.

Record Language : Type := mkLanguage {
  language_id : nat;
  rfc5646_language_tag : string;
  display_name : string;
  is_active : bool;
}.

(** A Translation row of the segment store. *)
Record Translation : Type := mkTranslation {
  text : string;
  updated_at : Time;
}.

(** What [create_or_update_translated_page] returns first: a page revision. *)
Record Revision : Type := mkRevision {
  rev_id : nat;
  rev_page : nat;
}.

#[global] Instance PontoonSyncLog_eq_dec : EqDecision PontoonSyncLog.
Proof. solve_decision. Defined.
#[global] Instance Translation_eq_dec : EqDecision Translation.
Proof. solve_decision. Defined.

(** ** PO files *)

Record POEntry : Type := mkEntry {
  msgid : string;
  msgstr : string;
}.

#[global] Instance POEntry_eq_dec : EqDecision POEntry.
Proof. solve_decision. Defined.

Record POFile : Type := mkPOFile {
  metadata : list (string * string);
  po_entries : list POEntry;
}.

#[global] Instance POFile_eq_dec : EqDecision POFile.
Proof. solve_decision. Defined.

(** [new_po.metadata = current_po.metadata] *)
Definition set_metadata (md : list (string * string)) (po : POFile) : POFile :=
  {| metadata := md; po_entries := po_entries po |}.

(** [set(new_po) - set(old_po)]: the entries of the new file that the old
    one does not have, each once.  Python iterates a set in hash order; the
    list below fixes one order (first occurrence in the new file), and no
    statement proved here depends on it. *)
Definition set_difference (new_po old_po : POFile) : list POEntry :=
  remove_dups (filter (λ e, e ∉ po_entries old_po) (po_entries new_po)).

(** ** The datastore *)

Section Datastore.

(** The state of the content-management system (pages, their revisions
    and translations): owned by [wagtail_localize], opaque here. *)
Context {CMS : Type}.

Record DB : Type := mkDB {
  sync_logs : list PontoonSyncLog;
  sync_log_resources : list PontoonSyncLogResource;
  submissions : list PontoonResourceSubmission;
  resources : list PontoonResource;
  languages : list Language;
  segments : gmap string nat;                  (* Segment, keyed by its text *)
  translations : gmap (nat * nat) Translation; (* by (segment, language) *)
  cms : CMS;
}.

Definition set_sync_logs (f : list PontoonSyncLog → list PontoonSyncLog) (d : DB) : DB :=
  mkDB (f (sync_logs d)) (sync_log_resources d) (submissions d) (resources d)
       (languages d) (segments d) (translations d) (cms d).

Definition set_sync_log_resources
    (f : list PontoonSyncLogResource → list PontoonSyncLogResource) (d : DB) : DB :=
  mkDB (sync_logs d) (f (sync_log_resources d)) (submissions d) (resources d)
       (languages d) (segments d) (translations d) (cms d).

Definition set_submissions
    (f : list PontoonResourceSubmission → list PontoonResourceSubmission) (d : DB) : DB :=
  mkDB (sync_logs d) (sync_log_resources d) (f (submissions d)) (resources d)
       (languages d) (segments d) (translations d) (cms d).

Definition set_translations
    (f : gmap (nat * nat) Translation → gmap (nat * nat) Translation) (d : DB) : DB :=
  mkDB (sync_logs d) (sync_log_resources d) (submissions d) (resources d)
       (languages d) (segments d) (f (translations d)) (cms d).

Definition set_cms (c : CMS) (d : DB) : DB :=
  mkDB (sync_logs d) (sync_log_resources d) (submissions d) (resources d)
       (languages d) (segments d) (translations d) c.

End Datastore.

Arguments DB : clear implicits.

(** ** Collaborators *)

(** The outcome of a call that may raise. *)
Inductive Try (A : Type) : Type :=
  | Returns (a : A)
  | Raises (e : exn).
Arguments Returns {A} a.
Arguments Raises {A} e.

(** Python's [bytes.decode('utf-8')] and the calls into [polib]:
    [polib.pofile(text, wrapwidth=n)] parses, [str(po)] serialises. *)
Class Codec : Type := {
  decode_utf8 : string → Try string;
  polib_pofile : nat → string → Try POFile;
  po_str : POFile → string;
}.

(** The repository adapter ([git.py], not among the source files), over an
    opaque repository state.  [read_file] is the reader's view, the other
    file operations are the writer's. *)
Class Repository (RepoSt : Type) : Type := {
  repo_pull : RepoSt → RepoSt;
  repo_push : RepoSt → RepoSt;
  get_head_commit_id : RepoSt → CommitId;
  get_changed_files : option CommitId → CommitId → RepoSt → list (Filename * string * string);
  repo_writer : RepoSt → RepoSt;
  read_file : Filename → RepoSt → Try string;
  copy_unmanaged_files : RepoSt → RepoSt;
  write_file : Filename → string → RepoSt → RepoSt;
  write_config : list string → list (Filename * string) → RepoSt → RepoSt;
  has_changes : RepoSt → bool;
  commit : string → RepoSt → RepoSt;
}.

(** The resource catalogue ([models.py], [pofile.py] and [wagtail_localize],
    not among the source files).  Queries read the datastore; materialising
    a translated page writes the content-management state only.
    [Segment_objects_DoesNotExist] is the value of the expression
    [Segment.objects.DoesNotExist], the attribute [DoesNotExist] looked up
    on the model's manager. *)
Class Catalog (CMS : Type) : Type := {
  get_by_po_filename : Filename → DB CMS → Try (PontoonResource * Language);
  find_translatable_submission :
    PontoonResource → Language → DB CMS → option PontoonResourceSubmission;
  create_or_update_translated_page :
    PontoonResourceSubmission → Language → DB CMS → Try (Revision * bool) * CMS;
  get_children_resources : Revision → DB CMS → list PontoonResource;
  get_po_filename : PontoonResource → option Language → Filename;
  get_locale_po_filename_template : PontoonResource → string;
  generate_source_pofile : PontoonResource → DB CMS → string;
  generate_language_pofile : PontoonResource → Language → DB CMS → string;
  default_id : DB CMS → nat;
  Segment_objects_DoesNotExist : Try exn;
}.

(** ** The world and the monad *)

(** What the code does that is not a datastore write: log records and the
    calls into the repository that the statements below observe. *)
Inductive Event : Type :=
  | LogInfo (msg : string)
  | LogWarning (msg : string)
  | RepoPull
  | RepoPush
  | GetChangedFiles (old_commit : option CommitId) (new_commit : CommitId)
  | WriteFile (filename : Filename) (content : string)
  | WriteConfig (tags : list string) (paths : list (Filename * string))
  | Commit (message : string)
  | Stdout (msg : string).

#[global] Instance Event_eq_dec : EqDecision Event.
Proof. solve_decision. Defined.

(** The events of the writer's file operations. *)
Definition is_write (ev : Event) : Prop :=
  match ev with
  | WriteFile _ _ | WriteConfig _ _ => True
  | _ => False
  end.

Section Engine.

Context {RepoSt CMS : Type}.
Context `{!Repository RepoSt, !Catalog CMS, !Codec}.

(** The datastore, the repository, the clock behind [timezone.now()] and
    the trace of events so far. *)
Record World : Type := mkWorld {
  db : DB CMS;
  repo : RepoSt;
  clock : Time;
  trace : list Event;
}.

Definition with_db (d : DB CMS) (w : World) : World :=
  mkWorld d (repo w) (clock w) (trace w).
Definition with_repo (r : RepoSt) (w : World) : World :=
  mkWorld (db w) r (clock w) (trace w).

(** A call returns, raises, or (for the recursion of propagation only)
    exhausts the fuel of the model. *)
Inductive Res (A : Type) : Type :=
  | Ok (a : A) (w : World)
  | Raise (e : exn) (w : World)
  | OutOfFuel.
Arguments Ok {A} a w.
Arguments Raise {A} e w.
Arguments OutOfFuel {A}.

Definition M (A : Type) : Type := World → Res A.

#[global] Instance M_ret : MRet M := λ A a w, Ok a w.
#[global] Instance M_bind : MBind M := λ A B f m w,
  match m w with
  | Ok a w' => f a w'
  | Raise e w' => Raise e w'
  | OutOfFuel => OutOfFuel
  end.

Definition raise {A} (e : exn) : M A := λ w, Raise e w.
Definition out_of_fuel {A} : M A := λ _, OutOfFuel.

Definition lift {A} (r : Try A) : M A :=
  match r with
  | Returns a => mret a
  | Raises e => raise e
  end.

Definition gets {A} (f : World → A) : M A := λ w, Ok (f w) w.
Definition modify (f : World → World) : M unit := λ w, Ok tt (f w).

Definition emit (ev : Event) : M unit :=
  modify (λ w, mkWorld (db w) (repo w) (clock w) (trace w ++ [ev])).
Definition logger_info (msg : string) : M unit := emit (LogInfo msg).
Definition logger_warning (msg : string) : M unit := emit (LogWarning msg).

(** A read-only query of the datastore. *)
Definition query {A} (q : DB CMS → A) : M A := gets (λ w, q (db w)).
Definition modify_db (f : DB CMS → DB CMS) : M unit :=
  modify (λ w, with_db (f (db w)) w).
Definition modify_repo (f : RepoSt → RepoSt) : M unit :=
  modify (λ w, with_repo (f (repo w)) w).

(** [timezone.now()]: the clock is read and moves on, so that two reads
    never give the same instant. *)
Definition timezone_now : M Time :=
  λ w, Ok (clock w) (mkWorld (db w) (repo w) (S (clock w)) (trace w)).

(** [try: body except cls: handler].  Python evaluates the expression
    [cls] only when an exception reaches the clause; if that evaluation
    raises, its exception replaces the one in flight. *)
Definition try_except {A} (body : M A) (cls : Try exn) (handler : M A) : M A :=
  λ w,
    match body w with
    | Raise e w' =>
        match cls with
        | Raises e' => Raise e' w'
        | Returns c => if decide (e = c) then handler w' else Raise e w'
        end
    | r => r
    end.

(** [transaction.atomic]: when the block raises, the datastore goes back
    to what it was on entry and the exception goes on; the repository,
    the clock and the log records are not part of the transaction. *)
Definition atomic {A} (block : M A) : M A :=
  λ w,
    match block w with
    | Raise e w' => Raise e (with_db (db w) w')
    | r => r
    end.

Fixpoint for_each {A} (l : list A) (body : A → M unit) : M unit :=
  match l with
  | [] => mret tt
  | x :: l' => body x;; for_each l' body
  end.

(** A [for] loop that threads the lists the body appends to. *)
Fixpoint for_acc {A S} (l : list A) (acc : S) (body : A → S → M S) : M S :=
  match l with
  | [] => mret acc
  | x :: l' => acc' ← body x acc; for_acc l' acc' body
  end.

(** The world an outcome leaves behind. *)
Definition final_world {A} (r : Res A) : option World :=
  match r with
  | Ok _ w => Some w
  | Raise _ w => Some w
  | OutOfFuel => None
  end.

(** ** The ORM calls the code makes *)

Definition next_id (ids : list nat) : nat := S (list_max ids).

(** [order_by('-time').first()]: a row with the greatest time (the one
    that comes first in the table among several). *)
Fixpoint first_by_time_desc (l : list PontoonSyncLog) : option PontoonSyncLog :=
  match l with
  | [] => None
  | x :: l' =>
      match first_by_time_desc l' with
      | Some y => if (time x <? time y)%nat then Some y else Some x
      | None => Some x
      end
  end.

(** [.exclude(commit_id='')] *)
Definition exclude_empty_commit_id (l : list PontoonSyncLog) : list PontoonSyncLog :=
  filter (λ x, commit_id x ≠ "") l.

(** The row that [PontoonSyncLog.objects.create] makes in a world: a
    fresh key and the time of its creation. *)
Definition new_log (a : Action) (c : CommitId) (w : World) : PontoonSyncLog :=
  mkSyncLog (next_id (log_id <$> sync_logs (db w))) a c (clock w).

(** [PontoonSyncLog.objects.create(action=.., commit_id=..)]; the
    [time] of the row is the time of the call. *)
Definition PontoonSyncLog_create (a : Action) (c : CommitId) : M PontoonSyncLog :=
  now ← timezone_now;
  ids ← query (λ d, log_id <$> sync_logs d);
  let log := mkSyncLog (next_id ids) a c now in
  modify_db (set_sync_logs (λ l, l ++ [log]));;
  mret log.

(** [PontoonSyncLogResource.objects.create(log=.., resource=.., language=..)] *)
Definition PontoonSyncLogResource_create
    (log : PontoonSyncLog) (rid : nat) (language : option Language) : M unit :=
  modify_db (set_sync_log_resources
               (λ l, l ++ [mkSyncLogResource (log_id log) rid (language_id <$> language)])).

(** [log.save(update_fields=['commit_id'])]: the row with the key of
    [log] takes its commit id. *)
Definition stamp_commit_id (log x : PontoonSyncLog) : PontoonSyncLog :=
  if decide (log_id x = log_id log)
  then mkSyncLog (log_id x) (action x) (commit_id log) (time x)
  else x.

Definition PontoonSyncLog_save_commit_id (log : PontoonSyncLog) : M unit :=
  modify_db (set_sync_logs (map (stamp_commit_id log))).

(** [Segment.objects.get(text=..)] *)
Definition Segment_objects_get (t : string) : M nat :=
  found ← query (λ d, segments d !! t);
  match found with
  | Some segment => mret segment
  | None => raise DoesNotExist
  end.

(** [segment.translations.get_or_create(language=.., defaults=..)] *)
Definition translations_get_or_create
    (segment : nat) (language : Language) (defaults : Translation) : M (Translation * bool) :=
  found ← query (λ d, translations d !! (segment, language_id language));
  match found with
  | Some translation => mret (translation, false)
  | None =>
      modify_db (set_translations (<[(segment, language_id language) := defaults]>));;
      mret (defaults, true)
  end.

(** [translation.save()] *)
Definition Translation_save (segment : nat) (language : Language) (t : Translation) : M unit :=
  modify_db (set_translations (<[(segment, language_id language) := t]>)).

(** [translatable_submission.create_or_update_translated_page(language)] *)
Definition create_or_update_translated_page_call
    (submission : PontoonResourceSubmission) (language : Language) : M (Revision * bool) :=
  r ← query (create_or_update_translated_page submission language);
  modify_db (set_cms r.2);;
  lift r.1.

(** ** sync.py, lines 21-41 *)

(** When [create_or_update_translated_page] raises
    [ParentNotTranslatedError] the handler logs and falls through to
    [if created:], but the tuple assignment never ran: [revision] and
    [created] are unbound locals, and reading [created] raises
    [UnboundLocalError].  [bound] is [None] in that case. *)
Fixpoint _try_update_resource_translation
    (fuel : nat) (resource : PontoonResource) (language : Language) : M unit :=
  match fuel with
  | 0 => out_of_fuel
  | S fuel =>
      translatable_submission ← query (find_translatable_submission resource language);
      match translatable_submission with
      | Some translatable_submission =>
          logger_info ("Saving translated page for '" +:+ page_title resource +:+
                       "' in " +:+ display_name language);;
          bound ← try_except
            (r ← create_or_update_translated_page_call translatable_submission language;
             mret (Some r))
            (Returns ParentNotTranslatedError)
            (logger_info ("Cannot save translated page for '" +:+ page_title resource +:+
                          "' in " +:+ display_name language +:+
                          " yet as its parent must be translated first");;
             mret None);
          match bound with
          | None => raise UnboundLocalError
          | Some (revision, created) =>
              if created : bool then
                child_page_resources ← query (get_children_resources revision);
                for_each child_page_resources
                  (λ resource, _try_update_resource_translation fuel resource language)
              else mret tt
          end
      | None => mret tt
      end
  end.

(** ** sync.py, lines 44-103 *)

(** Lines 80-100, the body of the loop over the changed entries.  The
    [defaults] dictionary is built, and the clock read, before
    [get_or_create] runs. *)
Definition _pull_changed_entry (language : Language) (changed_entry : POEntry) : M unit :=
  try_except
    (segment ← Segment_objects_get (msgid changed_entry);
     now ← timezone_now;
     '(translation, created) ←
       translations_get_or_create segment language
         {| text := msgstr changed_entry; updated_at := now |};
     if negb created then
       if decide (text translation ≠ msgstr changed_entry) then
         now ← timezone_now;
         Translation_save segment language
           {| text := msgstr changed_entry; updated_at := now |}
       else mret tt
     else mret tt)
    Segment_objects_DoesNotExist
    (logger_warning ("Unrecognised segment '" +:+ msgid changed_entry +:+ "'")).

(** Lines 47-50: the commit id of
    [order_by('-time').exclude(commit_id='').first()], if there is one. *)
Definition watermark (logs : list PontoonSyncLog) : option CommitId :=
  commit_id <$> first_by_time_desc (exclude_empty_commit_id logs).

Definition last_commit_id_of (d : DB CMS) : option CommitId :=
  watermark (sync_logs d).

(** Lines 65-103, the body of the loop over the changed files. *)
Definition _pull_changed_file
    (fuel : nat) (log : PontoonSyncLog) (file : Filename * string * string) : M unit :=
  let '(filename, old_content, new_content) := file in
  logger_info ("Pull: Importing changes in file '" +:+ filename +:+ "'");;
  '(resource, language) ← (r ← query (get_by_po_filename filename); lift r);
  PontoonSyncLogResource_create log (resource_id resource) (Some language);;
  old_po ← (s ← lift (decode_utf8 old_content); lift (polib_pofile 78 s));
  new_po ← (s ← lift (decode_utf8 new_content); lift (polib_pofile 78 s));
  atomic
    (for_each (set_difference new_po old_po) (_pull_changed_entry language);;
     _try_update_resource_translation fuel resource language).

Definition _pull (fuel : nat) : M unit :=
  atomic
    (last_commit_id ← query last_commit_id_of;
     head ← gets (λ w, get_head_commit_id (repo w));
     log ← PontoonSyncLog_create ACTION_PULL head;
     current_commit_id ← gets (λ w, get_head_commit_id (repo w));
     if decide (last_commit_id = Some current_commit_id) then
       logger_info "Pull: No changes since last sync"
     else
       head ← gets (λ w, get_head_commit_id (repo w));
       emit (GetChangedFiles last_commit_id head);;
       changed ← gets (λ w, get_changed_files last_commit_id head (repo w));
       for_each changed (_pull_changed_file fuel log)).

(** ** sync.py, lines 106-175 *)

(** Lines 112-125.  The assignment to [new_po_string] is the last
    statement of the [try] block, so on [KeyError] the name still holds
    the argument. *)
Definition update_po (filename : Filename) (new_po_string : string) : M unit :=
  new_po_string ← try_except
    (current_bytes ← (r ← gets (λ w, read_file filename (repo w)); lift r);
     current_po_string ← lift (decode_utf8 current_bytes);
     current_po ← lift (polib_pofile 200 current_po_string);
     new_po ← lift (polib_pofile 200 new_po_string);
     let new_po := set_metadata (metadata current_po) new_po in
     mret (po_str new_po))
    (Returns KeyError)
    (mret new_po_string);
  emit (WriteFile filename new_po_string);;
  modify_repo (write_file filename new_po_string).

(** The world after [writer.write_file(filename, content)]. *)
Definition after_write_file (filename : Filename) (content : string) (w : World) : World :=
  mkWorld (db w) (write_file filename content (repo w)) (clock w)
          (trace w ++ [WriteFile filename content]).

(** Line 127 *)
Definition active_languages (d : DB CMS) : list Language :=
  filter (λ l, language_id l ≠ default_id d)
         (filter (λ l, is_active l = true) (languages d)).

(** [submission.resource], in the table of resources *)
Definition resource_of (rs : list PontoonResource) (s : PontoonResourceSubmission)
    : option PontoonResource :=
  head (filter (λ r, resource_id r = sub_resource_id s) rs).

(** [revision_id=F('resource__current_revision_id')], with the join *)
Definition is_current (rs : list PontoonResource) (s : PontoonResourceSubmission)
    : option (PontoonResourceSubmission * PontoonResource) :=
  match resource_of rs s with
  | Some r => if decide (revision_id s = current_revision_id r) then Some (s, r) else None
  | None => None
  end.

Definition path_le (a b : PontoonResourceSubmission * PontoonResource) : Prop :=
  String.leb (path a.2) (path b.2) = true.

#[global] Instance path_le_dec a b : Decision (path_le a b).
Proof. unfold path_le. apply _. Defined.

(** Line 131: the submissions whose revision is their resource's current
    one, joined with the resource and ordered by its path. *)
Definition current_submissions (d : DB CMS)
    : list (PontoonResourceSubmission * PontoonResource) :=
  merge_sort path_le (omap (is_current (resources d)) (submissions d)).

(** The ids that the loop of [_push] collects. *)
Definition current_submission_ids (d : DB CMS) : list nat :=
  (λ item, submission_id item.1) <$> current_submissions d.

(** Every log is older than the present. *)
Definition logs_in_past (w : World) : Prop :=
  ∀ x, x ∈ sync_logs (db w) → (time x < clock w)%nat.

(** Line 146.  The queryset is lazy: each use below runs it again. *)
Definition pushed_submissions (pushed_submission_ids : list nat) (d : DB CMS)
    : list PontoonResourceSubmission :=
  filter (λ s, submission_id s ∈ pushed_submission_ids ∧ push_log s = None)
         (submissions d).

(** No current submission is waiting for its first push. *)
Definition all_pushed (d : DB CMS) : Prop :=
  pushed_submissions (current_submission_ids d) d = [].

(** Line 162: the rows of the queryset take [pushed_at] and [push_log]. *)
Definition mark_pushed (pushed_submission_ids : list nat) (now : Time) (log : PontoonSyncLog)
    (s : PontoonResourceSubmission) : PontoonResourceSubmission :=
  if decide (submission_id s ∈ pushed_submission_ids ∧ push_log s = None)
  then mkSubmission (submission_id s) (sub_resource_id s) (revision_id s)
                    (Some now) (Some (log_id log))
  else s.

Definition pushed_submissions_update
    (pushed_submission_ids : list nat) (now : Time) (log : PontoonSyncLog) : M unit :=
  modify_db (set_submissions (map (mark_pushed pushed_submission_ids now log))).

(** Lines 145-175 *)
Definition _push_log (pushed_submission_ids : list nat) : M unit :=
  any ← query (λ d, bool_decide (pushed_submissions pushed_submission_ids d ≠ []));
  if any : bool then
    log ← PontoonSyncLog_create ACTION_PUSH "";
    resource_ids ← query (λ d, sub_resource_id <$> pushed_submissions pushed_submission_ids d);
    for_each resource_ids (λ rid, PontoonSyncLogResource_create log rid None);;
    now ← timezone_now;
    pushed_submissions_update pushed_submission_ids now log;;
    changes ← gets (λ w, has_changes (repo w));
    (if changes : bool then
       logger_info "Push: Committing changes";;
       emit (Commit "Updates to source content");;
       modify_repo (commit "Updates to source content");;
       head ← gets (λ w, get_head_commit_id (repo w));
       PontoonSyncLog_save_commit_id (mkSyncLog (log_id log) (action log) head (time log))
     else
       logger_info ("Push: Not committing anything as recent changes haven't " +:+
                    "affected any translatable content"));;
    emit RepoPush;;
    modify_repo repo_push
  else
    logger_info "Push: No changes since last sync".

(** Lines 131-141, the body of the loop over the current submissions. *)
Definition _push_submission
    (languages : list Language)
    (item : PontoonResourceSubmission * PontoonResource)
    (acc : list (Filename * string) * list nat) : M (list (Filename * string) * list nat) :=
  let '(submission, resource) := item in
  let '(paths, pushed_submission_ids) := acc in
  source_po ← query (generate_source_pofile resource);
  update_po (get_po_filename resource None) source_po;;
  for_each languages (λ language,
    locale_po ← query (generate_language_pofile resource language);
    update_po (get_po_filename resource (Some language)) locale_po);;
  mret (paths ++ [(get_po_filename resource None, get_locale_po_filename_template resource)],
        pushed_submission_ids ++ [submission_id submission]).

Definition _push : M unit :=
  atomic
    (modify_repo repo_writer;;
     modify_repo copy_unmanaged_files;;
     languages ← query active_languages;
     current ← query current_submissions;
     '(paths, pushed_submission_ids) ←
       for_acc current ([], []) (_push_submission languages);
     emit (WriteConfig (rfc5646_language_tag <$> languages) paths);;
     modify_repo (write_config (rfc5646_language_tag <$> languages) paths);;
     _push_log pushed_submission_ids).

(** ** sync.py, lines 178-210: [SyncManager] *)

(** [Repository.open()] opens the repository of the world. *)
Definition sync (fuel : nat) : M unit :=
  logger_info "Pulling repository";;
  emit RepoPull;;
  modify_repo repo_pull;;
  _pull fuel;;
  _push;;
  logger_info "Finished".

Definition trigger (fuel : nat) : M unit := sync fuel.

Definition is_queued : M bool := mret false.

Definition is_running : M bool := mret false.

(** ** sync_pontoon.py, lines 15-92: the command's pull handler *)

Definition print (msg : string) : M unit := emit (Stdout msg).

Fixpoint try_update_resource_translation
    (fuel : nat) (resource : PontoonResource) (language : Language) : M unit :=
  match fuel with
  | 0 => out_of_fuel
  | S fuel =>
      translatable_submission ← query (find_translatable_submission resource language);
      match translatable_submission with
      | Some translatable_submission =>
          print ("Saving translated page for '" +:+ page_title resource +:+ "'");;
          bound ← try_except
            (r ← atomic (create_or_update_translated_page_call translatable_submission language);
             mret (Some r))
            (Returns ParentNotTranslatedError)
            (print "Unable to save translated page as its parent must be translated first";;
             mret None);
          match bound with
          | None => raise UnboundLocalError
          | Some (revision, created) =>
              if created : bool then
                child_page_resources ← query (get_children_resources revision);
                for_each child_page_resources
                  (λ resource, try_update_resource_translation fuel resource language)
              else mret tt
          end
      | None => mret tt
      end
  end.

Definition handle_pull_changed_entry (language : Language) (changed_entry : POEntry) : M unit :=
  try_except
    (segment ← Segment_objects_get (msgid changed_entry);
     now ← timezone_now;
     '(translation, created) ←
       translations_get_or_create segment language
         {| text := msgstr changed_entry; updated_at := now |};
     if negb created then
       if decide (text translation ≠ msgstr changed_entry) then
         now ← timezone_now;
         Translation_save segment language
           {| text := msgstr changed_entry; updated_at := now |}
       else mret tt
     else mret tt)
    Segment_objects_DoesNotExist
    (print "Pull Warning: unrecognised segment").

Definition handle_pull_changed_file (fuel : nat) (file : Filename * string * string) : M unit :=
  let '(filename, old_content, new_content) := file in
  print ("Push: Ingesting changes for " +:+ filename);;
  '(resource, language) ← (r ← query (get_by_po_filename filename); lift r);
  old_po ← (s ← lift (decode_utf8 old_content); lift (polib_pofile 78 s));
  new_po ← (s ← lift (decode_utf8 new_content); lift (polib_pofile 78 s));
  atomic
    (for_each (set_difference new_po old_po) (handle_pull_changed_entry language);;
     try_update_resource_translation fuel resource language).

(** Lines 41-92.  Here the last log is the most recent one whatever its
    commit id. *)
Definition handle_pull (fuel : nat) : M unit :=
  atomic
    (last_commit_id ← query (λ d, commit_id <$> first_by_time_desc (sync_logs d));
     head ← gets (λ w, get_head_commit_id (repo w));
     PontoonSyncLog_create ACTION_PULL head;;
     current_commit_id ← gets (λ w, get_head_commit_id (repo w));
     if decide (last_commit_id = Some current_commit_id) then
       print "Pull: No changes since last sync"
     else
       head ← gets (λ w, get_head_commit_id (repo w));
       emit (GetChangedFiles last_commit_id head);;
       changed ← gets (λ w, get_changed_files last_commit_id head (repo w));
       for_each changed (handle_pull_changed_file fuel)).

(** ** sync_pontoon.py, lines 94-157: the command's push and [handle] *)

(** Line 143: every row whose id was collected takes [pushed_at] and
    [push_log], whether it had them or not. *)
Definition mark_pushed_again (pushed_submission_ids : list nat) (now : Time)
    (log : PontoonSyncLog) (s : PontoonResourceSubmission) : PontoonResourceSubmission :=
  if decide (submission_id s ∈ pushed_submission_ids)
  then mkSubmission (submission_id s) (sub_resource_id s) (revision_id s)
                    (Some now) (Some (log_id log))
  else s.

(** Lines 133-147 *)
Definition handle_push_log (pushed_submission_ids : list nat) : M unit :=
  changes ← gets (λ w, has_changes (repo w));
  if changes : bool then
    print "Push: Committing changes";;
    emit (Commit "Updates to source content");;
    modify_repo (commit "Updates to source content");;
    head ← gets (λ w, get_head_commit_id (repo w));
    log ← PontoonSyncLog_create ACTION_PUSH head;
    now ← timezone_now;
    modify_db (set_submissions (map (mark_pushed_again pushed_submission_ids now log)));;
    emit RepoPush;;
    modify_repo repo_push
  else
    print "Push: No changes since last sync".

(** Lines 94-147.  The nested [update_po] and the loop over the
    submissions are, statement for statement, those of [_push]. *)
Definition handle_push : M unit :=
  atomic
    (modify_repo repo_writer;;
     modify_repo copy_unmanaged_files;;
     languages ← query active_languages;
     current ← query current_submissions;
     '(paths, pushed_submission_ids) ←
       for_acc current ([], []) (_push_submission languages);
     emit (WriteConfig (rfc5646_language_tag <$> languages) paths);;
     modify_repo (write_config (rfc5646_language_tag <$> languages) paths);;
     handle_push_log pushed_submission_ids).

(** Lines 149-157 *)
Definition handle (fuel : nat) : M unit :=
  emit RepoPull;;
  modify_repo repo_pull;;
  handle_pull fuel;;
  handle_push.

(** ** Vocabulary of the statements *)

(** The file names of the write events, in order. *)
Definition written_files (evs : list Event) : list Filename :=
  omap (λ ev, match ev with WriteFile f _ => Some f | _ => None end) evs.

(** The files [_push] writes for one current submission. *)
Definition files_of (languages : list Language)
    (item : PontoonResourceSubmission * PontoonResource) : list Filename :=
  get_po_filename item.2 None
  :: ((λ language, get_po_filename item.2 (Some language)) <$> languages).

(** Nothing of the datastore but the Translations and the pages has
    changed, and the repository is the same. *)
Definition ingest_frame (w w' : World) : Prop :=
  sync_logs (db w') = sync_logs (db w)
  ∧ sync_log_resources (db w') = sync_log_resources (db w)
  ∧ submissions (db w') = submissions (db w)
  ∧ resources (db w') = resources (db w)
  ∧ languages (db w') = languages (db w)
  ∧ segments (db w') = segments (db w)
  ∧ repo w' = repo w.

(** What the ingestion of [entries] in [language] may do: of the
    datastore, only Translations change, and only those of a segment
    that one of the entries names, in that language. *)
Definition entry_effect (language : Language) (entries : list POEntry) (w w' : World) : Prop :=
  ingest_frame w w'
  ∧ cms (db w') = cms (db w)
  ∧ ∀ k, translations (db w') !! k ≠ translations (db w) !! k →
         ∃ e, e ∈ entries ∧ segments (db w) !! msgid e = Some k.1
              ∧ k.2 = language_id language.

(** The events of a list of written files. *)
Definition write_events (written : list (Filename * string)) : list Event :=
  (λ fc, WriteFile fc.1 fc.2) <$> written.

(** The worlds that differ by written files only. *)
Definition wrote (written : list (Filename * string)) (w w' : World) : Prop :=
  db w' = db w ∧ clock w' = clock w ∧ trace w' = trace w ++ write_events written.

(** Nothing but the pages and the trace has changed. *)
Definition pages_frame (w w' : World) : Prop :=
  ingest_frame w w'
  ∧ translations (db w') = translations (db w)
  ∧ clock w' = clock w.



(** [steps D R m]: whether [m] returns or raises, the world it leaves is
    [R]-related to the one it started in; [D] is what is known when the
    fuel runs out ([True]: nothing, [False]: it does not). *)
Definition steps (D : Prop) (R : relation World) {A} (m : M A) : Prop :=
  ∀ w, match m w with
       | Ok _ w' => R w w'
       | Raise _ w' => R w w'
       | OutOfFuel => D
       end.

(** One operation of the writer before the commit. *)
Inductive writer_step : relation RepoSt :=
  | step_repo_writer r : writer_step r (repo_writer r)
  | step_copy_unmanaged_files r : writer_step r (copy_unmanaged_files r)
  | step_write_file f s r : writer_step r (write_file f s r)
  | step_write_config tags paths r : writer_step r (write_config tags paths r).

(** What the loop over the submissions may do: write files.  The
    datastore and the clock stay, the trace grows by write events. *)
Definition only_writes (w w' : World) : Prop :=
  db w' = db w
  ∧ clock w' = clock w
  ∧ rtc writer_step (repo w) (repo w')
  ∧ ∃ evs, trace w' = trace w ++ evs ∧ Forall is_write evs.

(** Past the creation of its log, a pull does not touch the logs, the
    submissions, the resources or the repository, and time goes on. *)
Definition pull_frame (w w' : World) : Prop :=
  sync_logs (db w') = sync_logs (db w)
  ∧ submissions (db w') = submissions (db w)
  ∧ resources (db w') = resources (db w)
  ∧ repo w' = repo w
  ∧ (clock w ≤ clock w')%nat.

(** The datastore after the rows of a push have been written. *)
Definition pushed_db (ids : list nat) (log : PontoonSyncLog) (w : World) : DB CMS :=
  set_submissions (map (mark_pushed ids (S (clock w)) log))
    (set_sync_log_resources
       (λ l, l ++ ((λ rid, mkSyncLogResource (log_id log) rid None)
                   <$> (sub_resource_id <$> pushed_submissions ids (db w))))
       (set_sync_logs (λ l, l ++ [log]) (db w))).

End Engine.

Arguments World : clear implicits.
Arguments Res : clear implicits.
Arguments M : clear implicits.
Arguments Ok {RepoSt CMS A} a w.
Arguments Raise {RepoSt CMS A} e w.
Arguments OutOfFuel {RepoSt CMS A}.

(** ** A small concrete installation

    Concrete collaborators on which the statements below are evaluated: a
    line-based PO codec, a repository held in memory and a catalogue over a
    page tree. *)

Module Toy.

(** *** Codec: one [;]-terminated line per item, [#key=value] for a
    metadata field and [msgid=msgstr] for an entry; a line without [=]
    is a syntax error. *)

Fixpoint split_at (c : Ascii.ascii) (s : string) : option (string * string) :=
  match s with
  | EmptyString => None
  | String a s' =>
      if decide (a = c) then Some (EmptyString, s')
      else match split_at c s' with
           | Some (l, r) => Some (String a l, r)
           | None => None
           end
  end.

Fixpoint lines (fuel : nat) (s : string) : list string :=
  match fuel with
  | 0 => []
  | S fuel =>
      match split_at ";"%char s with
      | Some (l, r) => l :: lines fuel r
      | None => if decide (s = "") then [] else [s]
      end
  end.

Definition parse_line (l : string) (po : POFile) : Try POFile :=
  match l with
  | String "#" l' =>
      match split_at "="%char l' with
      | Some (k, v) => Returns (mkPOFile (metadata po ++ [(k, v)]) (po_entries po))
      | None => Raises OSError
      end
  | _ =>
      match split_at "="%char l with
      | Some (k, v) => Returns (mkPOFile (metadata po) (po_entries po ++ [mkEntry k v]))
      | None => Raises OSError
      end
  end.

Fixpoint parse_lines (ls : list string) (po : POFile) : Try POFile :=
  match ls with
  | [] => Returns po
  | l :: ls' =>
      match parse_line l po with
      | Returns po' => parse_lines ls' po'
      | Raises e => Raises e
      end
  end.

Definition pofile (wrapwidth : nat) (s : string) : Try POFile :=
  parse_lines (lines (S (String.length s)) s) (mkPOFile [] []).

Definition to_string (po : POFile) : string :=
  String.concat "" (map (λ kv : string * string, "#" +:+ kv.1 +:+ "=" +:+ kv.2 +:+ ";") (metadata po))
  +:+ String.concat "" (map (λ e, msgid e +:+ "=" +:+ msgstr e +:+ ";") (po_entries po)).

#[export] Instance codec : Codec := {|
  decode_utf8 := Returns;
  polib_pofile := pofile;
  po_str := to_string;
|}.

(** *** Repository: the committed tree, the writer's files, and the
    changes that [get_changed_files] reports up to the head. *)

Record Repo : Type := mkRepo {
  head_name : string;
  tree : list (Filename * string);
  written : list (Filename * string);
  changed : list (Filename * string * string);
}.

Definition lookup_file (f : Filename) (files : list (Filename * string)) : option string :=
  snd <$> head (filter (λ x, x.1 = f) files).

#[export] Instance repository : Repository Repo := {|
  repo_pull := id;
  repo_push := id;
  get_head_commit_id r := "c" +:+ head_name r;
  get_changed_files old new r := changed r;
  repo_writer r := mkRepo (head_name r) (tree r) [] (changed r);
  read_file f r := from_option Returns (Raises KeyError) (lookup_file f (tree r));
  copy_unmanaged_files := id;
  write_file f s r := mkRepo (head_name r) (tree r) ((f, s) :: written r) (changed r);
  write_config tags paths := id;
  has_changes r :=
    bool_decide (Exists (λ x, lookup_file x.1 (tree r) ≠ Some x.2) (written r));
  commit msg r := mkRepo (head_name r +:+ "+") (written r ++ tree r) (written r) [];
|}.

(** *** Catalogue: the pages that exist in translation, the parent of a
    resource's page, and the resources whose page cannot be saved. *)

Record Pages : Type := mkPages {
  translated : list (nat * nat);       (* (resource, language) *)
  parent : list (nat * nat);           (* (child resource, parent resource) *)
  unsaveable : list nat;
}.

Definition po_filename (r : PontoonResource) (l : option Language) : Filename :=
  match l with
  | None => "templates/" +:+ path r +:+ ".pot"
  | Some l => "locales/" +:+ rfc5646_language_tag l +:+ "/" +:+ path r +:+ ".po"
  end.

Definition by_po_filename (f : Filename) (d : DB Pages) : Try (PontoonResource * Language) :=
  from_option Returns (Raises UnrecognizedFileError)
    (head (filter (λ rl : PontoonResource * Language, po_filename rl.1 (Some rl.2) = f)
             (r ← resources d; l ← languages d; [(r, l)]))).

Definition translatable_submission
    (r : PontoonResource) (l : Language) (d : DB Pages) : option PontoonResourceSubmission :=
  head (filter (λ s, sub_resource_id s = resource_id r ∧ revision_id s = current_revision_id r)
          (submissions d)).

Definition save_translated_page
    (s : PontoonResourceSubmission) (l : Language) (d : DB Pages) : Try (Revision * bool) * Pages :=
  let rid := sub_resource_id s in
  let pages := cms d in
  if decide (rid ∈ unsaveable pages) then (Raises (OtherError "IntegrityError"), pages)
  else if decide (Exists (λ cp, cp.1 = rid ∧ (cp.2, language_id l) ∉ translated pages)
                         (parent pages))
  then (Raises ParentNotTranslatedError, pages)
  else if decide ((rid, language_id l) ∈ translated pages)
  then (Returns (mkRevision (revision_id s) rid, false), pages)
  else (Returns (mkRevision (revision_id s) rid, true),
        mkPages ((rid, language_id l) :: translated pages) (parent pages) (unsaveable pages)).

Definition children_resources (rev : Revision) (d : DB Pages) : list PontoonResource :=
  filter (λ r, (resource_id r, rev_page rev) ∈ parent (cms d)) (resources d).

Definition source_pofile (r : PontoonResource) (d : DB Pages) : string :=
  to_string (mkPOFile [] ((λ kv : string * nat, mkEntry kv.1 "") <$> map_to_list (segments d))).

Definition language_pofile (r : PontoonResource) (l : Language) (d : DB Pages) : string :=
  to_string (mkPOFile []
    ((λ kv : string * nat,
        mkEntry kv.1 (from_option text "" (translations d !! (kv.2, language_id l))))
     <$> map_to_list (segments d))).

(** Django's [Manager] has no attribute [DoesNotExist] (the exception
    class is an attribute of the model, [Segment.DoesNotExist]): looking
    it up on [Segment.objects] raises [AttributeError]. *)
#[export] Instance catalog : Catalog Pages := {|
  get_by_po_filename := by_po_filename;
  find_translatable_submission := translatable_submission;
  create_or_update_translated_page := save_translated_page;
  get_children_resources := children_resources;
  get_po_filename := po_filename;
  get_locale_po_filename_template r := "locales/{locale}/" +:+ path r +:+ ".po";
  generate_source_pofile := source_pofile;
  generate_language_pofile := language_pofile;
  default_id d := 0;
  Segment_objects_DoesNotExist := Raises AttributeError;
|}.

(** A catalogue that differs only in that the manager does expose the
    model's exception class. *)
Definition catalog_with_manager_exception : Catalog Pages := {|
  get_by_po_filename := by_po_filename;
  find_translatable_submission := translatable_submission;
  create_or_update_translated_page := save_translated_page;
  get_children_resources := children_resources;
  get_po_filename := po_filename;
  get_locale_po_filename_template r := "locales/{locale}/" +:+ path r +:+ ".po";
  generate_source_pofile := source_pofile;
  generate_language_pofile := language_pofile;
  default_id d := 0;
  Segment_objects_DoesNotExist := Returns DoesNotExist;
|}.

(** *** Data *)

Definition en : Language := mkLanguage 0 "en" "English" true.
Definition fr : Language := mkLanguage 1 "fr" "French" true.

Definition about : PontoonResource := mkResource 1 "about" 10 "About".
Definition team : PontoonResource := mkResource 2 "about/team" 20 "Team".

Definition contact : PontoonResource := mkResource 3 "contact" 30 "Contact".

(** Three resources, each with a current submission not pushed yet;
    the page of [team] is a child of the page of [about], and the page
    of [contact] cannot be saved. *)
Definition store : DB Pages :=
  mkDB [] []
       [mkSubmission 1 1 10 None None; mkSubmission 2 2 20 None None;
        mkSubmission 3 3 30 None None]
       [about; team; contact] [en; fr]
       {[ "Hello" := 1; "Bye" := 2 ]} ∅
       (mkPages [] [(2, 1)] [3]).

(** The same with "Hello" translated, and a pull of commit [cA] on
    record. *)
Definition synced_store : DB Pages :=
  mkDB [mkSyncLog 1 ACTION_PULL "cA" 50] []
       [mkSubmission 1 1 10 None None]
       [about] [en; fr]
       {[ "Hello" := 1 ]} {[ (1, 1) := mkTranslation "Bonjour" 51 ]}
       (mkPages [(1, 1)] [] []).


Definition world_at (d : DB Pages) (r : Repo) : World Repo Pages := mkWorld d r 100 [].

(** Repositories: nothing to import; one changed file; two changed
    files, the second for [contact]; a changed file with an entry that
    no Segment matches; a tree where the file of [about] exists with a
    header and an entry of its own, one where it does not parse, and
    one that already holds what a push of [synced_store] writes. *)
Definition repo_at_A : Repo := mkRepo "A" [] [] [].
Definition repo_one_file : Repo :=
  mkRepo "B" [] [] [("locales/fr/about.po", "", "Hello=Bonjour;")].
Definition repo_two_files : Repo :=
  mkRepo "B" [] [] [("locales/fr/about.po", "", "Hello=Bonjour;");
                    ("locales/fr/contact.po", "", "Bye=Au revoir;")].
Definition repo_unknown_entry : Repo :=
  mkRepo "B" [] [] [("locales/fr/about.po", "", "Unknown=Inconnu;Hello=Bonjour;")].
Definition repo_with_header : Repo :=
  mkRepo "A" [("locales/fr/about.po", "#Last-Translator=Alice;Old=Vieux;")] [] [].
Definition repo_unparsable : Repo :=
  mkRepo "A" [("locales/fr/about.po", "garbage")] [] [].
Definition repo_up_to_date : Repo :=
  mkRepo "A" [("locales/fr/about.po", "Hello=Bonjour;"); ("templates/about.pot", "Hello=;")]
         [] [].

(** A changed file in a language the catalogue does not have. *)
Definition repo_unknown_file : Repo :=
  mkRepo "B" [] [] [("locales/de/about.po", "", "Hello=Hallo;");
                    ("locales/fr/about.po", "", "Hello=Bonjour;")].

(** The same two files, the one the catalogue does not have last. *)
Definition repo_unknown_file_last : Repo :=
  mkRepo "B" [] [] [("locales/fr/about.po", "", "Hello=Bonjour;");
                    ("locales/de/about.po", "", "Hello=Hallo;")].

(** Submissions of three kinds: current and pushed before, current and
    never pushed, stale (an older revision of [about]). *)
Definition mixed_store : DB Pages :=
  mkDB [mkSyncLog 9 ACTION_PUSH "cA" 7] []
       [mkSubmission 1 1 10 (Some 7) (Some 9); mkSubmission 2 2 20 None None;
        mkSubmission 4 1 5 None None]
       [about; team] [en; fr]
       {[ "Hello" := 1 ]} ∅
       (mkPages [] [(2, 1)] []).

End Toy.

(** * Properties *)

Create Rewrite HintDb run.

Section Proofs.

Context {RepoSt CMS : Type}.
Context `{!Repository RepoSt, !Catalog CMS, !Codec}.

Local Abbreviation W := (World RepoSt CMS).
Local Abbreviation Mon := (M RepoSt CMS).
Local Abbreviation steps := (@steps RepoSt CMS).
Local Abbreviation only_writes := (@only_writes RepoSt CMS _).
Local Abbreviation pull_frame := (@pull_frame RepoSt CMS).

(** ** Equations of the monad and of the ORM calls *)

Lemma run_bind {A B} (m : Mon A) (f : A → Mon B) (w : W) :
  (m ≫= f) w = match m w with
               | Ok a w' => f a w'
               | Raise e w' => Raise e w'
               | OutOfFuel => OutOfFuel
               end.
Proof. reflexivity. Qed.

Lemma run_ret {A} (a : A) (w : W) : (mret a : Mon A) w = Ok a w.
Proof. reflexivity. Qed.

Lemma run_raise {A} (e : exn) (w : W) : (raise e : Mon A) w = Raise e w.
Proof. reflexivity. Qed.

Lemma run_gets {A} (f : W → A) (w : W) : gets f w = Ok (f w) w.
Proof. reflexivity. Qed.

Lemma run_query {A} (q : DB CMS → A) (w : W) : query q w = Ok (q (db w)) w.
Proof. reflexivity. Qed.

Lemma run_emit (ev : Event) (w : W) :
  emit ev w = Ok tt (mkWorld (db w) (repo w) (clock w) (trace w ++ [ev])).
Proof. reflexivity. Qed.

Lemma run_logger_info (msg : string) (w : W) :
  logger_info msg w = Ok tt (mkWorld (db w) (repo w) (clock w) (trace w ++ [LogInfo msg])).
Proof. reflexivity. Qed.

Lemma run_logger_warning (msg : string) (w : W) :
  logger_warning msg w
  = Ok tt (mkWorld (db w) (repo w) (clock w) (trace w ++ [LogWarning msg])).
Proof. reflexivity. Qed.

Lemma run_print (msg : string) (w : W) :
  print msg w = Ok tt (mkWorld (db w) (repo w) (clock w) (trace w ++ [Stdout msg])).
Proof. reflexivity. Qed.

Lemma run_modify_db (f : DB CMS → DB CMS) (w : W) :
  modify_db f w = Ok tt (mkWorld (f (db w)) (repo w) (clock w) (trace w)).
Proof. reflexivity. Qed.

Lemma run_modify_repo (f : RepoSt → RepoSt) (w : W) :
  modify_repo f w = Ok tt (mkWorld (db w) (f (repo w)) (clock w) (trace w)).
Proof. reflexivity. Qed.

Lemma run_timezone_now (w : W) :
  timezone_now w = Ok (clock w) (mkWorld (db w) (repo w) (S (clock w)) (trace w)).
Proof. reflexivity. Qed.

Lemma run_lift_Returns {A} (a : A) (w : W) : lift (Returns a) w = Ok a w.
Proof. reflexivity. Qed.

Lemma run_lift_Raises {A} (e : exn) (w : W) : lift (Raises e : Try A) w = Raise e w.
Proof. reflexivity. Qed.

Lemma run_PontoonSyncLog_create (a : Action) (c : CommitId) (w : W) :
  PontoonSyncLog_create a c w
  = Ok (new_log a c w)
       (mkWorld (set_sync_logs (λ l, l ++ [new_log a c w]) (db w))
                (repo w) (S (clock w)) (trace w)).
Proof. reflexivity. Qed.

Lemma run_PontoonSyncLogResource_create log rid language (w : W) :
  PontoonSyncLogResource_create log rid language w
  = Ok tt (mkWorld
             (set_sync_log_resources
                (λ l, l ++ [mkSyncLogResource (log_id log) rid (language_id <$> language)])
                (db w))
             (repo w) (clock w) (trace w)).
Proof. reflexivity. Qed.

Hint Rewrite @run_bind @run_ret @run_raise @run_gets @run_query @run_emit
  @run_logger_info @run_logger_warning @run_print @run_modify_db @run_modify_repo
  @run_timezone_now @run_lift_Returns @run_lift_Raises
  @run_PontoonSyncLog_create @run_PontoonSyncLogResource_create : run.

Ltac run := repeat (autorewrite with run; cbn [db repo clock trace with_db with_repo]).

(** ** The default [SyncManager] *)

(** C9: [is_queued()] and [is_running()] answer [False] in every world,
    so also in the worlds a running [sync()] goes through, and they
    change nothing; [trigger()] is [sync()], run by the caller. *)
Theorem status_queries_are_constant (fuel : nat) (w : W) :
  is_queued w = Ok false w
  ∧ is_running w = Ok false w
  ∧ trigger fuel w = sync fuel w.
Proof. repeat split. Qed.

(** ** The pull watermark *)

(** At the watermark [_pull] appends its log and the "no changes"
    record, and stops. *)
Lemma run_pull_at_watermark (fuel : nat) (w : W) :
  last_commit_id_of (db w) = Some (get_head_commit_id (repo w)) →
  _pull fuel w =
    Ok tt (mkWorld
             (set_sync_logs
                (λ l, l ++ [new_log ACTION_PULL (get_head_commit_id (repo w)) w]) (db w))
             (repo w) (S (clock w))
             (trace w ++ [LogInfo "Pull: No changes since last sync"])).
Proof.
  intros Hlast. unfold _pull, atomic. run. rewrite Hlast.
  destruct (decide _) as [_|Hne]; [|congruence]. now run.
Qed.


(** The command's handler takes the most recent log whatever its commit
    id; when that one records the head, it is a no-op in the same way. *)
Lemma handle_pull_at_last_log_is_noop (fuel : nat) (w : W) (C : CommitId) :
  get_head_commit_id (repo w) = C →
  commit_id <$> first_by_time_desc (sync_logs (db w)) = Some C →
  handle_pull fuel w =
    Ok tt (mkWorld
             (set_sync_logs (λ l, l ++ [new_log ACTION_PULL C w]) (db w))
             (repo w) (S (clock w))
             (trace w ++ [Stdout "Pull: No changes since last sync"])).
Proof.
  intros Hhead Hlast.
  unfold handle_pull, atomic. run.
  rewrite Hlast, Hhead.
  destruct (decide (Some C = Some C)) as [_|Hne]; [|congruence].
  now run.
Qed.

(** ** Ingesting one changed entry *)

Lemma run_Segment_objects_get_Some (t : string) (segment : nat) (w : W) :
  segments (db w) !! t = Some segment → Segment_objects_get t w = Ok segment w.
Proof. intros Hs. unfold Segment_objects_get. run. now rewrite Hs. Qed.

Lemma run_Segment_objects_get_None (t : string) (w : W) :
  segments (db w) !! t = None → Segment_objects_get t w = Raise DoesNotExist w.
Proof. intros Hs. unfold Segment_objects_get. run. now rewrite Hs. Qed.

(** C3: for an entry whose segment has a Translation in the entry's
    language, [_pull_changed_entry] leaves the whole datastore as it was
    when the incoming text equals the stored one (nothing is saved,
    [updated_at] stays); only when the text differs is the row saved,
    with the new text and a new [updated_at]. *)
Theorem translation_saved_only_when_text_differs
    (language : Language) (changed_entry : POEntry) (w : W)
    (segment : nat) (translation : Translation) :
  segments (db w) !! msgid changed_entry = Some segment →
  translations (db w) !! (segment, language_id language) = Some translation →
  (text translation = msgstr changed_entry →
     _pull_changed_entry language changed_entry w
     = Ok tt (mkWorld (db w) (repo w) (S (clock w)) (trace w)))
  ∧ (text translation ≠ msgstr changed_entry →
     _pull_changed_entry language changed_entry w
     = Ok tt (mkWorld
                (set_translations
                   (<[(segment, language_id language) :=
                        mkTranslation (msgstr changed_entry) (S (clock w))]>)
                   (db w))
                (repo w) (S (S (clock w))) (trace w))).
Proof.
  intros Hseg Htr.
  split; intros Htext; unfold _pull_changed_entry, try_except; run;
    rewrite (run_Segment_objects_get_Some _ _ _ Hseg); run;
    unfold translations_get_or_create; run; rewrite Htr; run; cbn [negb];
    destruct (decide (text translation ≠ msgstr changed_entry)) as [Hd|Hd];
    try contradiction; try (destruct Hd; assumption).
  - reflexivity.
  - unfold Translation_save. now run.
Qed.

(** C6: when the source text of a changed entry matches no Segment,
    [Segment.objects.get] raises and Python evaluates the handler's
    class expression [Segment.objects.DoesNotExist]; when that lookup
    raises (as it does on a Django manager), its exception leaves
    [_pull_changed_entry]: no warning is logged and the loop over the
    remaining entries is abandoned. *)
Theorem unrecognised_segment_raises_from_except_clause
    (language : Language) (changed_entry : POEntry) (w : W) (e : exn) :
  segments (db w) !! msgid changed_entry = None →
  Segment_objects_DoesNotExist = Raises e →
  _pull_changed_entry language changed_entry w = Raise e w
  ∧ ∀ rest, for_each (changed_entry :: rest) (_pull_changed_entry language) w = Raise e w.
Proof.
  intros Hseg Hcls.
  assert (_pull_changed_entry language changed_entry w = Raise e w) as Hone.
  { unfold _pull_changed_entry, try_except. run.
    rewrite (run_Segment_objects_get_None _ _ Hseg), Hcls. reflexivity. }
  split; [exact Hone|].
  intros rest. cbn [for_each]. run. now rewrite Hone.
Qed.

(** What the handler would do if the class expression did evaluate to
    the model's exception class: log the warning and go on. *)
Lemma unrecognised_segment_skipped_when_clause_resolves
    (language : Language) (changed_entry : POEntry) (w : W) :
  segments (db w) !! msgid changed_entry = None →
  Segment_objects_DoesNotExist = Returns DoesNotExist →
  _pull_changed_entry language changed_entry w
  = Ok tt (mkWorld (db w) (repo w) (clock w)
             (trace w ++ [LogWarning ("Unrecognised segment '" +:+ msgid changed_entry +:+ "'")])).
Proof.
  intros Hseg Hcls. unfold _pull_changed_entry, try_except. run.
  rewrite (run_Segment_objects_get_None _ _ Hseg), Hcls.
  destruct (decide (DoesNotExist = DoesNotExist)); [|congruence]. now run.
Qed.

(** ** Propagation *)

Lemma run_create_or_update_translated_page_call submission language (w : W) :
  create_or_update_translated_page_call submission language w
  = lift (create_or_update_translated_page submission language (db w)).1
         (mkWorld (set_cms (create_or_update_translated_page submission language (db w)).2 (db w))
                  (repo w) (clock w) (trace w)).
Proof. reflexivity. Qed.

(** C5: when [create_or_update_translated_page] raises
    [ParentNotTranslatedError], [_try_update_resource_translation]
    catches it and logs, and no child resource is visited; but
    [if created:] then reads a local that was never assigned, and
    [UnboundLocalError] is raised to the caller. *)
Theorem parent_not_translated_raises_unbound_local
    (fuel : nat) (resource : PontoonResource) (language : Language) (w : W)
    (submission : PontoonResourceSubmission) (pages : CMS) :
  find_translatable_submission resource language (db w) = Some submission →
  create_or_update_translated_page submission language (db w)
    = (Raises ParentNotTranslatedError, pages) →
  _try_update_resource_translation (S fuel) resource language w
  = Raise UnboundLocalError
      (mkWorld (set_cms pages (db w)) (repo w) (clock w)
         ((trace w
           ++ [LogInfo ("Saving translated page for '" +:+ page_title resource +:+
                        "' in " +:+ display_name language)])
           ++ [LogInfo ("Cannot save translated page for '" +:+ page_title resource +:+
                        "' in " +:+ display_name language +:+
                        " yet as its parent must be translated first")])).
Proof.
  intros Hfind Hcreate.
  cbn [_try_update_resource_translation]. run. rewrite Hfind. run.
  unfold try_except. run.
  rewrite run_create_or_update_translated_page_call. cbn [db]. rewrite Hcreate.
  cbn [fst snd]. run.
  destruct (decide (ParentNotTranslatedError = ParentNotTranslatedError)); [|congruence].
  now run.
Qed.

(** The command's variant fails in the same way. *)
Lemma command_parent_not_translated_raises_unbound_local
    (fuel : nat) (resource : PontoonResource) (language : Language) (w : W)
    (submission : PontoonResourceSubmission) (pages : CMS) :
  find_translatable_submission resource language (db w) = Some submission →
  create_or_update_translated_page submission language (db w)
    = (Raises ParentNotTranslatedError, pages) →
  ∃ w', try_update_resource_translation (S fuel) resource language w
        = Raise UnboundLocalError w'.
Proof.
  intros Hfind Hcreate.
  cbn [try_update_resource_translation]. run. rewrite Hfind. run.
  unfold try_except, atomic. run.
  rewrite run_create_or_update_translated_page_call. cbn [db]. rewrite Hcreate.
  cbn [fst snd]. run.
  destruct (decide (ParentNotTranslatedError = ParentNotTranslatedError)); [|congruence].
  run. eauto.
Qed.

(** ** [update_po] *)

Lemma run_after_write_file filename content (w : W) :
  (emit (WriteFile filename content);; modify_repo (write_file filename content)) w
  = Ok tt (after_write_file filename content w).
Proof. reflexivity. Qed.

(** The existing file is read and parsed, and so is the generated
    content: the metadata of the former is put on the latter. *)
Lemma update_po_merges filename new_po_string (w : W) bytes s current_po new_po :
  read_file filename (repo w) = Returns bytes →
  decode_utf8 bytes = Returns s →
  polib_pofile 200 s = Returns current_po →
  polib_pofile 200 new_po_string = Returns new_po →
  update_po filename new_po_string w
  = Ok tt (after_write_file filename
             (po_str (set_metadata (metadata current_po) new_po)) w).
Proof.
  intros Hread Hdec Hcur Hnew. unfold update_po, try_except. run.
  rewrite Hread. run. rewrite Hdec. run. rewrite Hcur. run. rewrite Hnew. now run.
Qed.

(** The reader has no such file: [KeyError] is caught. *)
Lemma update_po_missing_file filename new_po_string (w : W) :
  read_file filename (repo w) = Raises KeyError →
  update_po filename new_po_string w
  = Ok tt (after_write_file filename new_po_string w).
Proof.
  intros Hread. unfold update_po, try_except. run. rewrite Hread. run.
  destruct (decide (KeyError = KeyError)); [|congruence]. now run.
Qed.

(** The existing file does not parse: the error is not a [KeyError]. *)
Lemma update_po_unparsable_file filename new_po_string (w : W) bytes s e :
  read_file filename (repo w) = Returns bytes →
  decode_utf8 bytes = Returns s →
  polib_pofile 200 s = Raises e →
  e ≠ KeyError →
  update_po filename new_po_string w = Raise e w.
Proof.
  intros Hread Hdec Hcur He. unfold update_po, try_except. run.
  rewrite Hread. run. rewrite Hdec. run. rewrite Hcur. run.
  destruct (decide (e = KeyError)); [contradiction|reflexivity].
Qed.

(** C7, as the code has it: an existing file that parses gives the
    generated content with the existing metadata (the generated content
    being well-formed PO text); a file the reader does not have gives the
    generated content unmodified; in both cases [update_po] returns.  An
    existing file that cannot be parsed is not caught: the parse error
    leaves [update_po] and nothing is written. *)
Theorem update_po_cases (filename : Filename) (new_po_string : string) (w : W) :
  (∀ bytes s current_po new_po,
     read_file filename (repo w) = Returns bytes →
     decode_utf8 bytes = Returns s →
     polib_pofile 200 s = Returns current_po →
     polib_pofile 200 new_po_string = Returns new_po →
     update_po filename new_po_string w
     = Ok tt (after_write_file filename
                (po_str (set_metadata (metadata current_po) new_po)) w))
  ∧ (read_file filename (repo w) = Raises KeyError →
     update_po filename new_po_string w
     = Ok tt (after_write_file filename new_po_string w))
  ∧ (∀ bytes s e,
     read_file filename (repo w) = Returns bytes →
     decode_utf8 bytes = Returns s →
     polib_pofile 200 s = Raises e →
     e ≠ KeyError →
     update_po filename new_po_string w = Raise e w).
Proof.
  split; [|split].
  - intros. eapply update_po_merges; eassumption.
  - apply update_po_missing_file.
  - intros. eapply update_po_unparsable_file; eassumption.
Qed.

(** C10: when [update_po] merges with an existing file, what it writes
    is the serialisation of the PO file that has the metadata of the
    existing file and the entries of the generated content, and nothing
    else of the existing file.  Where the codec reads back what it
    serialised, the written file has exactly the generated entries: an
    entry that only the existing file had is not in it. *)
Theorem update_po_keeps_only_the_metadata
    (filename : Filename) (new_po_string : string) (w : W)
    (bytes s : string) (current_po new_po : POFile) :
  read_file filename (repo w) = Returns bytes →
  decode_utf8 bytes = Returns s →
  polib_pofile 200 s = Returns current_po →
  polib_pofile 200 new_po_string = Returns new_po →
  let merged := mkPOFile (metadata current_po) (po_entries new_po) in
  update_po filename new_po_string w
    = Ok tt (after_write_file filename (po_str merged) w)
  ∧ (polib_pofile 200 (po_str merged) = Returns merged →
     ∃ written_po,
       polib_pofile 200 (po_str merged) = Returns written_po
       ∧ metadata written_po = metadata current_po
       ∧ po_entries written_po = po_entries new_po
       ∧ ∀ e, e ∈ po_entries current_po → e ∉ po_entries new_po →
              e ∉ po_entries written_po).
Proof.
  intros Hread Hdec Hcur Hnew merged. split.
  - exact (update_po_merges _ _ _ _ _ _ _ Hread Hdec Hcur Hnew).
  - intros Hround. exists merged. split; [exact Hround|].
    repeat split. intros e _ Hnot. exact Hnot.
Qed.

(** ** Relations that every step of a computation keeps *)

Section Steps.

Context (D : Prop) (R : relation W) `{!PreOrder R}.

Lemma steps_Ok {A} (m : Mon A) w a w' : steps D R m → m w = Ok a w' → R w w'.
Proof. intros Hm Hrun. specialize (Hm w). now rewrite Hrun in Hm. Qed.

Lemma steps_Raise {A} (m : Mon A) w e w' : steps D R m → m w = Raise e w' → R w w'.
Proof. intros Hm Hrun. specialize (Hm w). now rewrite Hrun in Hm. Qed.

Lemma steps_OutOfFuel {A} (m : Mon A) w : steps D R m → m w = OutOfFuel → D.
Proof. intros Hm Hrun. specialize (Hm w). now rewrite Hrun in Hm. Qed.

Lemma steps_ret {A} (a : A) : steps D R (mret a).
Proof. intros w. cbn. reflexivity. Qed.

Lemma steps_raise {A} (e : exn) : steps D R (raise e : Mon A).
Proof. intros w. cbn. reflexivity. Qed.

Lemma steps_lift {A} (r : Try A) : steps D R (lift r).
Proof. destruct r; [apply steps_ret|apply steps_raise]. Qed.

Lemma steps_gets {A} (f : W → A) : steps D R (gets f).
Proof. intros w. cbn. reflexivity. Qed.

Lemma steps_query {A} (q : DB CMS → A) : steps D R (query q).
Proof. apply steps_gets. Qed.

Lemma steps_bind {A B} (m : Mon A) (f : A → Mon B) :
  steps D R m → (∀ a, steps D R (f a)) → steps D R (m ≫= f).
Proof.
  intros Hm Hf w. rewrite run_bind. specialize (Hm w).
  destruct (m w) as [a w1|e w1|]; [|assumption..].
  specialize (Hf a w1).
  destruct (f a w1) as [b w2|e w2|]; [| |assumption]; etrans; eassumption.
Qed.

Lemma steps_for_each {A} (l : list A) (body : A → Mon unit) :
  (∀ x, steps D R (body x)) → steps D R (for_each l body).
Proof.
  intros Hbody. induction l as [|x l IH]; cbn [for_each].
  - apply steps_ret.
  - apply steps_bind; [apply Hbody|intros _; exact IH].
Qed.

Lemma steps_for_acc {A S} (l : list A) (acc : S) (body : A → S → Mon S) :
  (∀ x acc, steps D R (body x acc)) → steps D R (for_acc l acc body).
Proof.
  intros Hbody. revert acc. induction l as [|x l IH]; intros acc; cbn [for_acc].
  - apply steps_ret.
  - apply steps_bind; [apply Hbody|intros acc'; apply IH].
Qed.

Lemma steps_try_except {A} (body : Mon A) (cls : Try exn) (handler : Mon A) :
  steps D R body → steps D R handler → steps D R (try_except body cls handler).
Proof.
  intros Hbody Hhandler w. unfold try_except. specialize (Hbody w).
  destruct (body w) as [a w1|e w1|]; [assumption| |assumption].
  destruct cls as [c|e']; [|assumption].
  destruct (decide (e = c)); [|assumption].
  specialize (Hhandler w1).
  destruct (handler w1) as [a w2|e2 w2|]; [| |assumption]; etrans; eassumption.
Qed.

Lemma steps_atomic {A} (block : Mon A) :
  (∀ w w', R w w' → R w (with_db (db w) w')) →
  steps D R block → steps D R (atomic block).
Proof.
  intros Hrollback Hblock w. unfold atomic. specialize (Hblock w).
  destruct (block w) as [a w1|e w1|]; [assumption| |assumption].
  now apply Hrollback.
Qed.

End Steps.

(** Inversion of a sequence that returned. *)
Lemma bind_Ok_inv {A B} (m : Mon A) (f : A → Mon B) (w w' : W) (b : B) :
  (m ≫= f) w = Ok b w' → ∃ a w1, m w = Ok a w1 ∧ f a w1 = Ok b w'.
Proof.
  rewrite run_bind. destruct (m w) as [a w1|e w1|]; [|discriminate..]. eauto.
Qed.

Lemma atomic_Ok_inv {A} (block : Mon A) (w w' : W) (a : A) :
  atomic block w = Ok a w' → block w = Ok a w'.
Proof. unfold atomic. destruct (block w); [auto|discriminate..]. Qed.

(** [transaction.atomic]: a block that raises leaves the datastore as it
    found it. *)
Lemma atomic_Raise_inv {A} (block : Mon A) (w w' : W) (e : exn) :
  atomic block w = Raise e w' → db w' = db w.
Proof.
  unfold atomic. destruct (block w) as [|e1 w1|]; [discriminate| |discriminate].
  intros [= _ <-]. reflexivity.
Qed.

(** ** The push: writing the files *)

#[local] Instance only_writes_preorder : PreOrder only_writes.
Proof.
  split.
  - intros w. repeat split; [reflexivity|]. exists []. now rewrite app_nil_r.
  - intros w1 w2 w3 (Hd1 & Hc1 & Hr1 & evs1 & Ht1 & He1) (Hd2 & Hc2 & Hr2 & evs2 & Ht2 & He2).
    repeat split; [congruence|congruence|etrans; eassumption|].
    exists (evs1 ++ evs2). split; [|now apply Forall_app].
    now rewrite Ht2, Ht1, app_assoc.
Qed.

Lemma steps_emit_write D (ev : Event) : is_write ev → steps D only_writes (emit ev).
Proof.
  intros Hev w. rewrite run_emit. repeat split; [reflexivity|].
  exists [ev]. split; [reflexivity|]. now constructor.
Qed.

Lemma steps_writer_op D (f : RepoSt → RepoSt) :
  (∀ r, writer_step r (f r)) → steps D only_writes (modify_repo f).
Proof.
  intros Hstep w. rewrite run_modify_repo. repeat split.
  - apply rtc_once, Hstep.
  - exists []. now rewrite app_nil_r.
Qed.

Lemma steps_update_po D filename new_po_string :
  steps D only_writes (update_po filename new_po_string).
Proof.
  unfold update_po. apply steps_bind; [apply _| |].
  - apply steps_try_except; [apply _| |apply steps_ret; apply _].
    repeat first [apply steps_bind; [apply _| |intros ?]
                 |apply steps_gets|apply steps_lift|apply steps_ret]; apply _.
  - intros s. apply steps_bind; [apply _| |intros _].
    + now apply steps_emit_write.
    + apply steps_writer_op. intros r. constructor.
Qed.

Lemma steps_push_submission D languages item acc :
  steps D only_writes (_push_submission languages item acc).
Proof.
  destruct item as [submission resource], acc as [paths ids]. unfold _push_submission.
  apply steps_bind; [apply _|apply steps_query; apply _|intros source_po].
  apply steps_bind; [apply _|apply steps_update_po|intros _].
  apply steps_bind; [apply _| |intros _; apply steps_ret; apply _].
  apply steps_for_each; [apply _|]. intros language.
  apply steps_bind; [apply _|apply steps_query; apply _|intros locale_po].
  apply steps_update_po.
Qed.

(** The second list the loop builds is the ids of the submissions. *)
Lemma push_submission_ids languages item paths ids (w w' : W) paths' ids' :
  _push_submission languages item (paths, ids) w = Ok (paths', ids') w' →
  ids' = ids ++ [submission_id item.1].
Proof.
  destruct item as [submission resource]. unfold _push_submission. intros Hrun.
  apply bind_Ok_inv in Hrun as (source_po & w1 & _ & Hrun).
  apply bind_Ok_inv in Hrun as ([] & w2 & _ & Hrun).
  apply bind_Ok_inv in Hrun as ([] & w3 & _ & Hrun).
  rewrite run_ret in Hrun. now injection Hrun as _ <- _.
Qed.

Lemma push_loop_ids languages current paths ids (w w' : W) paths' ids' :
  for_acc current (paths, ids) (_push_submission languages) w = Ok (paths', ids') w' →
  ids' = ids ++ ((λ item, submission_id item.1) <$> current).
Proof.
  revert paths ids w. induction current as [|item current IH]; intros paths ids w; cbn [for_acc].
  - rewrite run_ret. intros [= _ <- _]. now rewrite app_nil_r.
  - intros Hrun. apply bind_Ok_inv in Hrun as ([paths1 ids1] & w1 & Hitem & Hrun).
    apply push_submission_ids in Hitem as ->. apply IH in Hrun as ->.
    now rewrite <- app_assoc.
Qed.

(** ** The push: the log *)

Lemma run_log_resources (log : PontoonSyncLog) (rids : list nat) (w : W) :
  for_each rids (λ rid, PontoonSyncLogResource_create log rid None) w
  = Ok tt (mkWorld
             (set_sync_log_resources
                (λ l, l ++ ((λ rid, mkSyncLogResource (log_id log) rid None) <$> rids))
                (db w))
             (repo w) (clock w) (trace w)).
Proof.
  revert w. induction rids as [|rid rids IH]; intros w; cbn [for_each]; run.
  - destruct w as [[] ? ? ?]. unfold set_sync_log_resources. cbn.
    now rewrite app_nil_r.
  - rewrite IH. unfold set_sync_log_resources. cbn. now rewrite <- app_assoc.
Qed.

(** No submission is new: nothing but a log record. *)
Lemma push_log_nothing_new (ids : list nat) (w : W) :
  pushed_submissions ids (db w) = [] →
  _push_log ids w
  = Ok tt (mkWorld (db w) (repo w) (clock w)
             (trace w ++ [LogInfo "Push: No changes since last sync"])).
Proof.
  intros Hnone. unfold _push_log. run.
  rewrite bool_decide_false by (intros Hne; now apply Hne). now run.
Qed.

(** Some submission is new and the writer has no change: the log keeps
    its empty commit id, no commit is made, the repository is pushed. *)
Lemma push_log_without_commit (ids : list nat) (w : W) :
  pushed_submissions ids (db w) ≠ [] →
  has_changes (repo w) = false →
  _push_log ids w
  = Ok tt (mkWorld (pushed_db ids (new_log ACTION_PUSH "" w) w)
             (repo_push (repo w)) (S (S (clock w)))
             ((trace w
               ++ [LogInfo ("Push: Not committing anything as recent changes haven't " +:+
                            "affected any translatable content")])
               ++ [RepoPush])).
Proof.
  intros Hnew Hchanges. unfold _push_log. run.
  rewrite bool_decide_true by assumption. run.
  rewrite run_log_resources. run. unfold pushed_submissions_update. run.
  rewrite Hchanges. now run.
Qed.

(** Some submission is new and the writer has changes: they are
    committed, the log takes the new head, the repository is pushed. *)
Lemma push_log_with_commit (ids : list nat) (w : W) :
  pushed_submissions ids (db w) ≠ [] →
  has_changes (repo w) = true →
  let log := new_log ACTION_PUSH "" w in
  let committed := commit "Updates to source content" (repo w) in
  _push_log ids w
  = Ok tt (mkWorld
             (set_sync_logs
                (map (stamp_commit_id
                        (mkSyncLog (log_id log) (action log)
                                   (get_head_commit_id committed) (time log))))
                (pushed_db ids log w))
             (repo_push committed) (S (S (clock w)))
             (((trace w ++ [LogInfo "Push: Committing changes"])
               ++ [Commit "Updates to source content"])
               ++ [RepoPush])).
Proof.
  intros Hnew Hchanges log committed. unfold _push_log. run.
  rewrite bool_decide_true by assumption. run.
  rewrite run_log_resources. run. unfold pushed_submissions_update. run.
  rewrite Hchanges. run. unfold PontoonSyncLog_save_commit_id. now run.
Qed.

Lemma push_log_returns (ids : list nat) (w : W) : ∃ w', _push_log ids w = Ok tt w'.
Proof.
  destruct (decide (pushed_submissions ids (db w) = [])) as [Hnone|Hnew].
  - rewrite push_log_nothing_new by assumption. eauto.
  - destruct (has_changes (repo w)) eqn:Hchanges.
    + rewrite push_log_with_commit by assumption. eauto.
    + rewrite push_log_without_commit by assumption. eauto.
Qed.

(** [_push] either raises while it writes the files, and its
    transaction is rolled back, or it writes them and goes on to
    [_push_log] with the ids of the current submissions. *)
Lemma push_outcome (w : W) :
  (∃ e w', _push w = Raise e w' ∧ db w' = db w)
  ∨ (∃ w2 w', only_writes w w2
              ∧ _push_log (current_submission_ids (db w)) w2 = Ok tt w'
              ∧ _push w = Ok tt w').
Proof.
  unfold _push, atomic. run.
  set (w1 := mkWorld (db w) (copy_unmanaged_files (repo_writer (repo w))) (clock w) (trace w)).
  assert (only_writes w w1) as Hw1.
  { repeat split; [|exists []; now rewrite app_nil_r].
    cbn. etrans; apply rtc_once; constructor. }
  pose proof (steps_for_acc False only_writes (current_submissions (db w)) ([], [])
                (_push_submission (active_languages (db w)))
                (λ item acc, steps_push_submission False _ item acc) w1) as Hloop.
  destruct (for_acc _ _ _ w1) as [[paths ids] w5|e w5|] eqn:Hrun; [|left; eauto|contradiction].
  apply push_loop_ids in Hrun. cbn [app] in Hrun. subst ids.
  destruct Hloop as (Hdb & Hclock & Hrepo & evs & Htrace & Hevs).
  run. fold (current_submission_ids (db w)).
  match goal with
  | |- context [_push_log ?ids ?w7] => destruct (push_log_returns ids w7) as [w' Hlog]
  end.
  rewrite Hlog. right. eexists _, w'. split; [|split; [exact Hlog|reflexivity]].
  etrans; [exact Hw1|]. repeat split; cbn.
  - exact Hdb.
  - exact Hclock.
  - etrans; [exact Hrepo|]. apply rtc_once. constructor.
  - exists (evs ++ [WriteConfig (rfc5646_language_tag <$> active_languages (db w)) paths]).
    rewrite Htrace, app_assoc. split; [reflexivity|].
    apply Forall_app. split; [exact Hevs|]. now repeat constructor.
Qed.

Lemma next_id_fresh (l : list PontoonSyncLog) (x : PontoonSyncLog) :
  x ∈ l → log_id x ≠ next_id (log_id <$> l).
Proof.
  intros Hin. unfold next_id.
  assert (log_id x ≤ list_max (log_id <$> l))%nat; [|lia].
  pose proof (proj1 (list_max_le (log_id <$> l) _) (le_n _)) as Hall.
  rewrite List.Forall_forall in Hall. apply Hall.
  apply list_elem_of_In, list_elem_of_fmap. eauto.
Qed.

Lemma stamp_new_log (l : list PontoonSyncLog) (id : nat) (a : Action) (c c' : CommitId) (t : Time) :
  (∀ x, x ∈ l → log_id x ≠ id) →
  map (stamp_commit_id (mkSyncLog id a c' t)) (l ++ [mkSyncLog id a c t])
  = l ++ [mkSyncLog id a c' t].
Proof.
  intros Hfresh. rewrite map_app. f_equal.
  - induction l as [|x l IH]; [reflexivity|]. cbn [map]. f_equal.
    + unfold stamp_commit_id. cbn [log_id commit_id].
      destruct (decide (log_id x = id)) as [Heq|]; [|reflexivity].
      exfalso. eapply Hfresh; [left|exact Heq].
    + apply IH. intros y Hy. apply Hfresh. now right.
  - cbn. unfold stamp_commit_id. cbn [log_id commit_id].
    destruct (decide (id = id)); [reflexivity|congruence].
Qed.


(** ** What a pull leaves alone *)

#[local] Instance pull_frame_preorder : PreOrder pull_frame.
Proof.
  split.
  - intros w. now repeat split.
  - intros w1 w2 w3 (? & ? & ? & ? & ?) (? & ? & ? & ? & ?).
    repeat split; [congruence..|lia].
Qed.

Lemma pull_frame_rollback (w w' : W) : pull_frame w w' → pull_frame w (with_db (db w) w').
Proof. intros (? & ? & ? & ? & ?). now repeat split. Qed.

Lemma steps_modify D (R : relation W) (f : W → W) :
  (∀ w, R w (f w)) → steps D R (modify f).
Proof. intros Hf w. apply Hf. Qed.

Ltac pull_frame_step :=
  first [ apply steps_modify; intros ?; repeat split; cbn; lia
        | intros ?; cbn; repeat split; cbn; lia ].

Lemma steps_pull_changed_entry D language changed_entry :
  steps D pull_frame (_pull_changed_entry language changed_entry).
Proof.
  unfold _pull_changed_entry. apply steps_try_except; [apply _| |pull_frame_step].
  apply steps_bind; [apply _| |intros segment].
  { unfold Segment_objects_get. apply steps_bind; [apply _|apply steps_query; apply _|].
    intros [segment|]; [apply steps_ret|apply steps_raise]; apply _. }
  apply steps_bind; [apply _|pull_frame_step|intros now].
  apply steps_bind; [apply _| |intros [translation created]].
  { unfold translations_get_or_create.
    apply steps_bind; [apply _|apply steps_query; apply _|].
    intros [translation|]; [apply steps_ret; apply _|].
    apply steps_bind; [apply _|pull_frame_step|intros _; apply steps_ret; apply _]. }
  destruct created; cbn [negb]; [apply steps_ret; apply _|].
  destruct (decide _); [|apply steps_ret; apply _].
  apply steps_bind; [apply _|pull_frame_step|intros now'].
  pull_frame_step.
Qed.

Lemma steps_try_update_resource_translation fuel resource language :
  steps True pull_frame (_try_update_resource_translation fuel resource language).
Proof.
  revert resource. induction fuel as [|fuel IH]; intros resource;
    cbn [_try_update_resource_translation]; [intros w; exact I|].
  apply steps_bind; [apply _|apply steps_query; apply _|].
  intros [submission|]; [|apply steps_ret; apply _].
  apply steps_bind; [apply _|pull_frame_step|intros _].
  apply steps_bind; [apply _| |intros [[revision created]|]].
  - apply steps_try_except; [apply _| |].
    + apply steps_bind; [apply _| |intros r; apply steps_ret; apply _].
      intros w. rewrite run_create_or_update_translated_page_call.
      destruct (create_or_update_translated_page submission language (db w)) as [[r|e] pages];
        cbn; now repeat split.
    + apply steps_bind; [apply _|pull_frame_step|intros _; apply steps_ret; apply _].
  - destruct created; [|apply steps_ret; apply _].
    apply steps_bind; [apply _|apply steps_query; apply _|intros children].
    apply steps_for_each; [apply _|]. intros child. apply IH.
  - apply steps_raise; apply _.
Qed.

Lemma steps_pull_changed_file fuel log file :
  steps True pull_frame (_pull_changed_file fuel log file).
Proof.
  destruct file as [[filename old_content] new_content]. unfold _pull_changed_file.
  apply steps_bind; [apply _|pull_frame_step|intros _].
  apply steps_bind; [apply _| |intros [resource language]].
  { apply steps_bind; [apply _|apply steps_query; apply _|intros r; apply steps_lift; apply _]. }
  apply steps_bind; [apply _|pull_frame_step|intros _].
  apply steps_bind; [apply _| |intros old_po].
  { apply steps_bind; [apply _|apply steps_lift; apply _|intros s; apply steps_lift; apply _]. }
  apply steps_bind; [apply _| |intros new_po].
  { apply steps_bind; [apply _|apply steps_lift; apply _|intros s; apply steps_lift; apply _]. }
  apply steps_atomic; [apply pull_frame_rollback|].
  apply steps_bind; [apply _| |intros _; apply steps_try_update_resource_translation].
  apply steps_for_each; [apply _|]. intros e. apply steps_pull_changed_entry.
Qed.

(** ** The pull as one transaction *)

(** A loop stops at the first element whose body raises. *)
Lemma for_each_app_Raise {A} (before : list A) (x : A) (rest : list A)
    (body : A → Mon unit) (w w1 w2 : W) (e : exn) :
  for_each before body w = Ok tt w1 →
  body x w1 = Raise e w2 →
  for_each (before ++ x :: rest) body w = Raise e w2.
Proof.
  revert w. induction before as [|y before IH]; intros w; cbn [for_each app].
  - rewrite run_ret. intros [= <-] Hx. now rewrite run_bind, Hx.
  - intros Hrun Hx. apply bind_Ok_inv in Hrun as ([] & w' & Hy & Hrun).
    rewrite run_bind, Hy. now apply IH.
Qed.

(** Nothing in [_pull] catches what the body of its loop raises: the
    first file that fails ends the pull, and the transaction of the pull
    puts the datastore back. *)
Lemma pull_aborts_at_a_failing_file
    (fuel : nat) (w : W) (before : list (Filename * string * string))
    (file : Filename * string * string) (rest : list (Filename * string * string))
    (w1 w2 : W) (e : exn) :
  let head := get_head_commit_id (repo w) in
  let last := last_commit_id_of (db w) in
  let log := new_log ACTION_PULL head w in
  last ≠ Some head →
  get_changed_files last head (repo w) = before ++ file :: rest →
  for_each before (_pull_changed_file fuel log)
    (mkWorld (set_sync_logs (λ l, l ++ [log]) (db w)) (repo w) (S (clock w))
             (trace w ++ [GetChangedFiles last head])) = Ok tt w1 →
  _pull_changed_file fuel log file w1 = Raise e w2 →
  _pull fuel w = Raise e (with_db (db w) w2).
Proof.
  intros head last log Hlast Hchanged Hbefore Hfile. subst head last log.
  unfold _pull, atomic. run.
  destruct (decide _) as [Hsame|_]; [contradiction|]. run.
  rewrite Hchanged.
  now rewrite (for_each_app_Raise _ _ _ _ _ _ _ _ Hbefore Hfile).
Qed.

(** What a failing file leaves behind, before the transaction of the
    pull undoes it: the block of the file is a savepoint, so the
    Translations and the pages are those from before the file; the
    SyncLogResource row was written before the block and is still
    there. *)
Lemma changed_file_Raise_inv
    (fuel : nat) (log : PontoonSyncLog) (filename : Filename)
    (old_content new_content : string) (w w' : W) (e : exn) :
  _pull_changed_file fuel log (filename, old_content, new_content) w = Raise e w' →
  translations (db w') = translations (db w)
  ∧ cms (db w') = cms (db w)
  ∧ match get_by_po_filename filename (db w) with
    | Returns (resource, language) =>
        sync_log_resources (db w')
        = sync_log_resources (db w)
          ++ [mkSyncLogResource (log_id log) (resource_id resource)
                                (Some (language_id language))]
    | Raises e' => e = e' ∧ db w' = db w
    end.
Proof.
  unfold _pull_changed_file. run.
  destruct (get_by_po_filename filename (db w)) as [[resource language]|e0]; run;
    [|intros [= <- <-]; now cbn].
  destruct (decode_utf8 old_content) as [s_old|e0]; run; [|intros [= _ <-]; now cbn].
  destruct (polib_pofile 78 s_old) as [old_po|e0]; run; [|intros [= _ <-]; now cbn].
  destruct (decode_utf8 new_content) as [s_new|e0]; run; [|intros [= _ <-]; now cbn].
  destruct (polib_pofile 78 s_new) as [new_po|e0]; run; [|intros [= _ <-]; now cbn].
  intros Hblock. apply atomic_Raise_inv in Hblock. rewrite Hblock. now cbn.
Qed.

(** C4, as the code has it: [_pull] as a whole is one transaction.  When
    the processing of a changed file raises, in whatever position the
    file comes, the exception leaves [_pull] and the datastore is what
    it was before the pull: the pull's SyncLog entry, which was there
    when the file failed, and the updates of the files processed before
    are undone with those of the failing file.  The block of one file
    (entry ingestion and propagation) is a savepoint inside it: at the
    failure the Translations and the pages were those from before the
    file, while the SyncLogResource row, written before the block, was
    in place. *)
Theorem pull_is_one_transaction
    (fuel : nat) (w : W) (before : list (Filename * string * string))
    (filename : Filename) (old_content new_content : string)
    (rest : list (Filename * string * string)) (w1 w2 : W) (e : exn) :
  let head := get_head_commit_id (repo w) in
  let last := last_commit_id_of (db w) in
  let log := new_log ACTION_PULL head w in
  last ≠ Some head →
  get_changed_files last head (repo w)
    = before ++ (filename, old_content, new_content) :: rest →
  for_each before (_pull_changed_file fuel log)
    (mkWorld (set_sync_logs (λ l, l ++ [log]) (db w)) (repo w) (S (clock w))
             (trace w ++ [GetChangedFiles last head])) = Ok tt w1 →
  _pull_changed_file fuel log (filename, old_content, new_content) w1 = Raise e w2 →
  _pull fuel w = Raise e (mkWorld (db w) (repo w2) (clock w2) (trace w2))
  ∧ sync_logs (db w1) = sync_logs (db w) ++ [log]
  ∧ translations (db w2) = translations (db w1)
  ∧ cms (db w2) = cms (db w1)
  ∧ ∀ resource language,
      get_by_po_filename filename (db w1) = Returns (resource, language) →
      sync_log_resources (db w2)
      = sync_log_resources (db w1)
        ++ [mkSyncLogResource (log_id log) (resource_id resource)
                              (Some (language_id language))].
Proof.
  intros head last log Hlast Hchanged Hbefore Hfile. split.
  - exact (pull_aborts_at_a_failing_file fuel w before _ rest w1 w2 e
             Hlast Hchanged Hbefore Hfile).
  - split.
    + eapply (steps_Ok True pull_frame) in Hbefore as (Hlogs & _).
      * exact Hlogs.
      * apply steps_for_each; [apply _|]. intros file. apply steps_pull_changed_file.
    + apply changed_file_Raise_inv in Hfile as (Htr & Hcms & Hrow).
      split; [exact Htr|]. split; [exact Hcms|].
      intros resource language Hresolve. now rewrite Hresolve in Hrow.
Qed.

(** A pull that returns has appended its PULL log, stamped with the
    head, and has left the submissions, the resources and the repository
    as they were. *)
Lemma pull_Ok_inv (fuel : nat) (w w' : W) :
  _pull fuel w = Ok tt w' →
  sync_logs (db w')
    = sync_logs (db w) ++ [new_log ACTION_PULL (get_head_commit_id (repo w)) w]
  ∧ submissions (db w') = submissions (db w)
  ∧ resources (db w') = resources (db w)
  ∧ repo w' = repo w
  ∧ (clock w < clock w')%nat.
Proof.
  intros Hpull. apply atomic_Ok_inv in Hpull. revert Hpull. run.
  destruct (decide _) as [Hsame|Hdiff]; run.
  - intros [= <-]. cbn. repeat split. lia.
  - intros Hloop.
    eapply (steps_Ok True pull_frame) in Hloop;
      [|apply steps_for_each; [apply _|]; intros; apply steps_pull_changed_file].
    destruct Hloop as (Hlogs & Hsubs & Hres & Hrepo & Hclock). cbn in *.
    repeat split; [assumption..|lia].
Qed.

(** ** The watermark *)

Lemma first_by_time_desc_snoc (l : list PontoonSyncLog) (x : PontoonSyncLog) :
  (∀ y, y ∈ l → (time y < time x)%nat) → first_by_time_desc (l ++ [x]) = Some x.
Proof.
  induction l as [|y l IH]; intros Hold; [reflexivity|].
  cbn [app first_by_time_desc]. rewrite IH by (intros z Hz; apply Hold; now right).
  assert (time y < time x)%nat as Hy by (apply Hold; left).
  apply Nat.ltb_lt in Hy. now rewrite Hy.
Qed.

Lemma watermark_snoc (l : list PontoonSyncLog) (x : PontoonSyncLog) :
  commit_id x ≠ "" →
  (∀ y, y ∈ l → (time y < time x)%nat) →
  watermark (l ++ [x]) = Some (commit_id x).
Proof.
  intros Hc Hold. unfold watermark, exclude_empty_commit_id.
  rewrite filter_app, (filter_cons_True _ x []) by assumption. cbn [filter list_filter].
  rewrite first_by_time_desc_snoc; [reflexivity|].
  intros y Hy. apply list_elem_of_filter in Hy as [_ Hy]. now apply Hold.
Qed.

Lemma watermark_snoc_empty (l : list PontoonSyncLog) (x : PontoonSyncLog) :
  commit_id x = "" → watermark (l ++ [x]) = watermark l.
Proof.
  intros Hc. unfold watermark, exclude_empty_commit_id.
  rewrite filter_app, (filter_cons_False _ x []) by (intros Hne; now apply Hne).
  cbn [filter list_filter]. now rewrite app_nil_r.
Qed.

(** ** Submissions already pushed *)

Lemma current_submission_ids_ext (d d' : DB CMS) :
  submissions d' = submissions d → resources d' = resources d →
  current_submission_ids d' = current_submission_ids d.
Proof. intros Hs Hr. unfold current_submission_ids, current_submissions. now rewrite Hs, Hr. Qed.

Lemma all_pushed_ext (d d' : DB CMS) :
  submissions d' = submissions d → resources d' = resources d →
  all_pushed d → all_pushed d'.
Proof.
  intros Hs Hr. unfold all_pushed, pushed_submissions.
  now rewrite (current_submission_ids_ext d d'), Hs.
Qed.

Lemma is_current_fst rs s item : is_current rs s = Some item → item.1 = s.
Proof.
  unfold is_current. destruct (resource_of rs s) as [r|]; [|discriminate].
  destruct (decide _); [|discriminate]. now intros [= <-].
Qed.

Lemma elem_of_current_submission_ids (d : DB CMS) (x : nat) :
  x ∈ current_submission_ids d
  ↔ ∃ s item, s ∈ submissions d ∧ is_current (resources d) s = Some item
              ∧ submission_id s = x.
Proof.
  unfold current_submission_ids, current_submissions.
  rewrite list_elem_of_fmap. split.
  - intros (item & -> & Hin). rewrite merge_sort_Permutation in Hin.
    apply list_elem_of_omap in Hin as (s & Hs & Hcur).
    exists s, item. now rewrite (is_current_fst _ _ _ Hcur).
  - intros (s & item & Hs & Hcur & <-). exists item.
    split; [now rewrite (is_current_fst _ _ _ Hcur)|].
    rewrite merge_sort_Permutation. apply list_elem_of_omap. eauto.
Qed.

Lemma is_current_mark_pushed rs ids now log s item :
  is_current rs (mark_pushed ids now log s) = Some item →
  ∃ item', is_current rs s = Some item'.
Proof.
  unfold mark_pushed. destruct (decide _); [|eauto].
  unfold is_current, resource_of. cbn [sub_resource_id revision_id].
  destruct (head _) as [r|]; [|discriminate].
  destruct (decide _); [eauto|discriminate].
Qed.

Lemma filter_none {A} (P : A → Prop) `{!∀ x, Decision (P x)} (l : list A) :
  (∀ x, x ∈ l → ¬ P x) → filter P l = [].
Proof.
  induction l as [|x l IH]; intros Hnone; [reflexivity|].
  rewrite filter_cons_False by (apply Hnone; left).
  apply IH. intros y Hy. apply Hnone. now right.
Qed.

(** Once the current submissions that had no push log have been given
    one, none is left without. *)
Lemma all_pushed_after_mark (d d' : DB CMS) now log :
  submissions d' = map (mark_pushed (current_submission_ids d) now log) (submissions d) →
  resources d' = resources d →
  all_pushed d'.
Proof.
  intros Hs Hr. unfold all_pushed, pushed_submissions.
  apply filter_none. intros s' Hin [Hid Hnone]. revert Hin Hid Hnone.
  rewrite Hs. intros Hin. apply list_elem_of_fmap in Hin as (s & -> & Hin).
  rewrite elem_of_current_submission_ids. intros (s1' & item & Hin1 & Hcur & Hid).
  rewrite Hs in Hin1. apply list_elem_of_fmap in Hin1 as (s1 & -> & Hin1).
  rewrite Hr in Hcur. apply is_current_mark_pushed in Hcur as [item' Hcur].
  assert (submission_id s ∈ current_submission_ids d) as Hids.
  { apply elem_of_current_submission_ids. exists s1, item'.
    repeat split; [assumption..|].
    revert Hid. unfold mark_pushed. now repeat destruct (decide _). }
  unfold mark_pushed. destruct (decide _) as [|Hnot]; [discriminate|].
  intros Hnone. apply Hnot. now split.
Qed.

(** ** Two syncs in a row *)

Section SyncTwice.

(** What is asked of the repository adapter: a commit id is never
    empty, and the head moves on a commit only, not when the writer
    prepares files nor on a push. *)
Hypothesis head_not_empty : ∀ r, get_head_commit_id r ≠ "".
Hypothesis writer_keeps_head :
  ∀ r r', writer_step r r' → get_head_commit_id r' = get_head_commit_id r.
Hypothesis push_keeps_head :
  ∀ r, get_head_commit_id (repo_push r) = get_head_commit_id r.

Lemma writes_keep_head (w w' : W) :
  only_writes w w' → get_head_commit_id (repo w') = get_head_commit_id (repo w).
Proof.
  intros (_ & _ & Hreach & _). induction Hreach as [|r1 r2 r3 Hstep _ IH]; [reflexivity|].
  now rewrite IH, (writer_keeps_head _ _ Hstep).
Qed.

(** A push that returns leaves no current submission unpushed; it
    appends at most one log, and whatever the case the watermark that
    a log with a commit id sets is the head it leaves. *)
Lemma push_Ok_inv (w w' : W) :
  _push w = Ok tt w' →
  all_pushed (db w')
  ∧ ((sync_logs (db w') = sync_logs (db w)
      ∧ get_head_commit_id (repo w') = get_head_commit_id (repo w))
     ∨ (∃ log, sync_logs (db w') = sync_logs (db w) ++ [log]
               ∧ time log = clock w
               ∧ ((commit_id log = ""
                   ∧ get_head_commit_id (repo w') = get_head_commit_id (repo w))
                  ∨ commit_id log = get_head_commit_id (repo w')))).
Proof.
  intros Hpush.
  destruct (push_outcome w) as [(e & w0 & Hraise & _)|(w2 & w0 & Hw & Hlog & Hok)];
    [congruence|].
  rewrite Hpush in Hok. injection Hok as <-.
  pose proof (writes_keep_head _ _ Hw) as Hhead.
  destruct Hw as (Hdb & Hclock & _ & _).
  destruct (decide (pushed_submissions (current_submission_ids (db w)) (db w2) = []))
    as [Hnone|Hnew].
  - rewrite push_log_nothing_new in Hlog by assumption. injection Hlog as <-. cbn.
    split; [|left; now rewrite Hdb].
    unfold all_pushed. now rewrite (current_submission_ids_ext (db w) (db w2)) by now rewrite Hdb.
  - destruct (has_changes (repo w2)) eqn:Hchanges.
    + rewrite push_log_with_commit in Hlog by assumption. injection Hlog as <-. cbn.
      split.
      * apply (all_pushed_after_mark (db w2) _ (S (clock w2)) (new_log ACTION_PUSH "" w2)).
        -- cbn. now rewrite (current_submission_ids_ext (db w) (db w2)) by now rewrite Hdb.
        -- reflexivity.
      * right. unfold new_log. cbn [log_id action time].
        rewrite stamp_new_log by apply next_id_fresh.
        rewrite Hdb, Hclock. eexists. split; [reflexivity|]. split; [reflexivity|].
        right. cbn. now rewrite push_keeps_head.
    + rewrite push_log_without_commit in Hlog by assumption. injection Hlog as <-. cbn.
      split.
      * apply (all_pushed_after_mark (db w2) _ (S (clock w2)) (new_log ACTION_PUSH "" w2)).
        -- cbn. now rewrite (current_submission_ids_ext (db w) (db w2)) by now rewrite Hdb.
        -- reflexivity.
      * right. unfold new_log. rewrite Hdb, Hclock.
        eexists. split; [reflexivity|]. split; [reflexivity|].
        left. cbn. split; [reflexivity|]. now rewrite push_keeps_head.
Qed.

(** After a sync that returned, the watermark is the head. *)
Lemma sync_sets_watermark (fuel : nat) (w0 w1 : W) :
  logs_in_past w0 →
  sync fuel w0 = Ok tt w1 →
  last_commit_id_of (db w1) = Some (get_head_commit_id (repo w1))
  ∧ all_pushed (db w1).
Proof.
  intros Hpast Hsync. unfold sync in Hsync. revert Hsync. run.
  set (w0c := mkWorld (db w0) (repo_pull (repo w0)) (clock w0) _).
  destruct (_pull fuel w0c) as [[] w0d|e w0d|] eqn:Hpull; [|intros [=]..].
  run.
  destruct (_push w0d) as [[] w0e|e w0e|] eqn:Hpush; [|intros [=]..].
  run. intros [= <-]. cbn [db repo].
  apply pull_Ok_inv in Hpull as (Hlogs & _ & _ & Hrepo & Hclock).
  apply push_Ok_inv in Hpush as (Hall & Hcases). split; [|exact Hall].
  unfold last_commit_id_of.
  assert (watermark (sync_logs (db w0d)) = Some (get_head_commit_id (repo w0d))) as Hmark.
  { rewrite Hlogs, Hrepo. apply watermark_snoc; [apply head_not_empty|].
    intros y Hy. apply Hpast in Hy. exact Hy. }
  destruct Hcases as [[-> ->]|(log & -> & Htime & [[Hc ->]| Hc])].
  - exact Hmark.
  - now rewrite watermark_snoc_empty.
  - rewrite <- Hc. apply watermark_snoc; [rewrite Hc; apply head_not_empty|].
    intros y. rewrite Hlogs, Htime, elem_of_app, list_elem_of_singleton.
    intros [Hy| ->]; [apply Hpast in Hy; cbn in *; lia|]. exact Hclock.
Qed.

(** C2: after a sync that returned, and with the head of the
    repository where that sync left it, a second sync changes the
    datastore by one PULL log and nothing else, whether its push
    returns or raises: no Translation is updated, no submission is
    marked again and no PUSH log is created.  It never needs fuel. *)
Theorem second_sync_adds_only_a_pull_log (fuel fuel' : nat) (w0 w1 : W) :
  logs_in_past w0 →
  sync fuel w0 = Ok tt w1 →
  get_head_commit_id (repo_pull (repo w1)) = get_head_commit_id (repo w1) →
  ∃ w2,
    final_world (sync fuel' w1) = Some w2
    ∧ db w2 = set_sync_logs
                (λ l, l ++ [new_log ACTION_PULL (get_head_commit_id (repo w1)) w1])
                (db w1)
    ∧ translations (db w2) = translations (db w1)
    ∧ submissions (db w2) = submissions (db w1)
    ∧ filter (λ x, action x = ACTION_PUSH) (sync_logs (db w2))
      = filter (λ x, action x = ACTION_PUSH) (sync_logs (db w1)).
Proof.
  intros Hpast Hsync Hhead.
  destruct (sync_sets_watermark _ _ _ Hpast Hsync) as [Hmark Hall].
  assert (∃ w2, final_world (sync fuel' w1) = Some w2
                ∧ db w2 = set_sync_logs
                    (λ l, l ++ [new_log ACTION_PULL (get_head_commit_id (repo w1)) w1])
                    (db w1)) as (w2 & Hfinal & Hdb).
  { unfold sync. run.
    set (w1c := mkWorld (db w1) (repo_pull (repo w1)) (clock w1) _).
    rewrite (run_pull_at_watermark fuel' w1c)
      by (cbn [db repo w1c]; now rewrite Hhead).
    cbn [db repo clock trace w1c]. rewrite Hhead.
    change (new_log ACTION_PULL (get_head_commit_id (repo w1)) w1c)
      with (new_log ACTION_PULL (get_head_commit_id (repo w1)) w1).
    run.
    match goal with |- context [_push ?w] => set (w1d := w) end.
    destruct (push_outcome w1d) as [(e & w' & -> & Hdb)|(w2 & w' & Hw & Hlog & ->)].
    - exists w'. split; [reflexivity|]. now rewrite Hdb.
    - destruct Hw as (Hdb2 & _).
      rewrite push_log_nothing_new in Hlog.
      + injection Hlog as <-. run. eexists. split; [reflexivity|]. now rewrite Hdb2.
      + rewrite Hdb2. apply (all_pushed_ext (db w1)); [reflexivity..|exact Hall]. }
  exists w2. split; [exact Hfinal|]. split; [exact Hdb|]. rewrite Hdb. cbn.
  repeat split. rewrite filter_app, filter_cons_False, filter_nil, app_nil_r; [reflexivity|].
  cbn. discriminate.
Qed.

End SyncTwice.

(** * Further properties of the code *)

Local Abbreviation ingest_frame := (@ingest_frame RepoSt CMS).
Local Abbreviation pages_frame := (@pages_frame RepoSt CMS).
Local Abbreviation wrote := (@wrote RepoSt CMS).

(** ** One changed entry (sync.py, lines 80-100) *)

Lemma run_entry_created language changed_entry (w : W) segment :
  segments (db w) !! msgid changed_entry = Some segment →
  translations (db w) !! (segment, language_id language) = None →
  _pull_changed_entry language changed_entry w
  = Ok tt (mkWorld
             (set_translations
                (<[(segment, language_id language) :=
                     mkTranslation (msgstr changed_entry) (clock w)]>) (db w))
             (repo w) (S (clock w)) (trace w)).
Proof.
  intros Hseg Htr. unfold _pull_changed_entry, try_except. run.
  rewrite (run_Segment_objects_get_Some _ _ _ Hseg). run.
  unfold translations_get_or_create. run. rewrite Htr. now run.
Qed.

Lemma run_entry_existing language changed_entry (w : W) segment translation :
  segments (db w) !! msgid changed_entry = Some segment →
  translations (db w) !! (segment, language_id language) = Some translation →
  _pull_changed_entry language changed_entry w
  = Ok tt (if decide (text translation = msgstr changed_entry)
           then mkWorld (db w) (repo w) (S (clock w)) (trace w)
           else mkWorld
                  (set_translations
                     (<[(segment, language_id language) :=
                          mkTranslation (msgstr changed_entry) (S (clock w))]>) (db w))
                  (repo w) (S (S (clock w))) (trace w)).
Proof.
  intros Hseg Htr. unfold _pull_changed_entry, try_except. run.
  rewrite (run_Segment_objects_get_Some _ _ _ Hseg). run.
  unfold translations_get_or_create. run. rewrite Htr. run. cbn [negb].
  destruct (decide (text translation ≠ msgstr changed_entry)) as [Hd|Hd];
    destruct (decide (text translation = msgstr changed_entry)) as [He|He];
    try contradiction; try (destruct Hd; assumption).
  - unfold Translation_save. now run.
  - reflexivity.
Qed.

(** X1: an entry whose segment exists and has no Translation yet in the
    file's language creates it, with the entry's text and the time of
    the call; every other Translation, and the rest of the datastore,
    stays. *)
Theorem first_translation_is_created
    (language : Language) (changed_entry : POEntry) (w : W) (segment : nat) :
  segments (db w) !! msgid changed_entry = Some segment →
  translations (db w) !! (segment, language_id language) = None →
  ∃ w',
    _pull_changed_entry language changed_entry w = Ok tt w'
    ∧ translations (db w') !! (segment, language_id language)
      = Some (mkTranslation (msgstr changed_entry) (clock w))
    ∧ (∀ k, k ≠ (segment, language_id language) →
            translations (db w') !! k = translations (db w) !! k)
    ∧ ingest_frame w w'
    ∧ cms (db w') = cms (db w)
    ∧ trace w' = trace w.
Proof.
  intros Hseg Htr. eexists. split; [exact (run_entry_created _ _ _ _ Hseg Htr)|]. cbn.
  split; [apply lookup_insert_eq|].
  split; [intros k Hk; now apply lookup_insert_ne|].
  now repeat split.
Qed.

Local Abbreviation entry_effect := (@entry_effect RepoSt CMS).

Lemma entry_effect_same_db language entries (w w' : W) :
  db w' = db w → repo w' = repo w → entry_effect language entries w w'.
Proof.
  intros Hdb Hrepo. unfold entry_effect, ingest_frame. rewrite Hdb, Hrepo.
  repeat split. intros k Hk. now destruct Hk.
Qed.

Lemma entry_effect_insert language entries (w w' : W) e segment t :
  e ∈ entries →
  segments (db w) !! msgid e = Some segment →
  db w' = set_translations (<[(segment, language_id language) := t]>) (db w) →
  repo w' = repo w →
  entry_effect language entries w w'.
Proof.
  intros Hin Hseg Hdb Hrepo. unfold entry_effect, ingest_frame.
  rewrite Hdb, Hrepo. cbn. repeat split. intros k Hk.
  destruct (decide (k = (segment, language_id language))) as [->|Hne]; [eauto|].
  rewrite lookup_insert_ne in Hk by congruence. now destruct Hk.
Qed.

Lemma entry_effect_trans language entries (w1 w2 w3 : W) :
  entry_effect language entries w1 w2 → entry_effect language entries w2 w3 →
  entry_effect language entries w1 w3.
Proof.
  intros ((Hl1 & Hr1 & Hs1 & Hres1 & Hla1 & Hseg1 & Hrepo1) & Hc1 & Hk1)
         ((Hl2 & Hr2 & Hs2 & Hres2 & Hla2 & Hseg2 & Hrepo2) & Hc2 & Hk2).
  split; [repeat split; congruence|]. split; [congruence|].
  intros k Hk.
  destruct (decide (translations (db w2) !! k = translations (db w1) !! k)) as [Heq|Hne].
  - rewrite <- Heq in Hk. apply Hk2 in Hk as (e & Hin & Hseg & Hlang).
    rewrite Hseg1 in Hseg. eauto.
  - now apply Hk1.
Qed.

Lemma entry_outcome language entries changed_entry (w : W) :
  changed_entry ∈ entries →
  match _pull_changed_entry language changed_entry w with
  | Ok _ w' | Raise _ w' => entry_effect language entries w w'
  | OutOfFuel => False
  end.
Proof.
  intros Hin.
  destruct (segments (db w) !! msgid changed_entry) as [segment|] eqn:Hseg.
  - destruct (translations (db w) !! (segment, language_id language)) as [t|] eqn:Htr.
    + rewrite (run_entry_existing _ _ _ _ _ Hseg Htr). destruct (decide _).
      * now apply entry_effect_same_db.
      * eapply entry_effect_insert; [exact Hin|exact Hseg|reflexivity..].
    + rewrite (run_entry_created _ _ _ _ Hseg Htr).
      eapply entry_effect_insert; [exact Hin|exact Hseg|reflexivity..].
  - unfold _pull_changed_entry, try_except. run.
    rewrite (run_Segment_objects_get_None _ _ Hseg).
    destruct Segment_objects_DoesNotExist as [c|e'];
      [destruct (decide (DoesNotExist = c)); run|]; now apply entry_effect_same_db.
Qed.

(** X2: whatever the outcome of ingesting the changed entries of a file,
    the only rows of the datastore that can differ afterwards are
    Translations, in the file's language, of segments that one of the
    entries names; logs, submissions, segments and pages are as before.
    The loop needs no fuel. *)
Theorem entries_touch_only_their_translations
    (language : Language) (entries : list POEntry) (w : W) :
  match for_each entries (_pull_changed_entry language) w with
  | Ok _ w' | Raise _ w' => entry_effect language entries w w'
  | OutOfFuel => False
  end.
Proof.
  assert (∀ l, (∀ e, e ∈ l → e ∈ entries) →
               ∀ w0 : W, match for_each l (_pull_changed_entry language) w0 with
                         | Ok _ w' | Raise _ w' => entry_effect language entries w0 w'
                         | OutOfFuel => False
                         end) as Hloop.
  { induction l as [|e l IH]; intros Hsub w0; cbn [for_each].
    - rewrite run_ret. now apply entry_effect_same_db.
    - rewrite run_bind.
      pose proof (entry_outcome language entries e w0 (Hsub e ltac:(left))) as He.
      destruct (_pull_changed_entry language e w0) as [[] w1|e1 w1|]; [|exact He..].
      specialize (IH (λ x Hx, Hsub x ltac:(now right)) w1).
      destruct (for_each l _ w1) as [[] w2|e2 w2|]; [| |exact IH];
        eapply entry_effect_trans; eassumption. }
  apply Hloop. auto.
Qed.

(** X3: ingesting the same entry a second time leaves the datastore as
    the first time left it: after the first, the Translation has the
    entry's text, so the second saves nothing and [updated_at] stays. *)
Theorem reingesting_an_entry_changes_nothing
    (language : Language) (changed_entry : POEntry) (w : W) (segment : nat) :
  segments (db w) !! msgid changed_entry = Some segment →
  ∃ w1 w2 t,
    _pull_changed_entry language changed_entry w = Ok tt w1
    ∧ translations (db w1) !! (segment, language_id language) = Some t
    ∧ text t = msgstr changed_entry
    ∧ _pull_changed_entry language changed_entry w1 = Ok tt w2
    ∧ db w2 = db w1.
Proof.
  intros Hseg.
  assert (∃ w1 t, _pull_changed_entry language changed_entry w = Ok tt w1
                  ∧ segments (db w1) !! msgid changed_entry = Some segment
                  ∧ translations (db w1) !! (segment, language_id language) = Some t
                  ∧ text t = msgstr changed_entry) as (w1 & t & Hrun & Hseg1 & Htr1 & Htext).
  { destruct (translations (db w) !! (segment, language_id language)) as [t|] eqn:Htr.
    - rewrite (run_entry_existing _ _ _ _ _ Hseg Htr).
      destruct (decide _) as [Heq|Hne]; eexists _, _; (split; [reflexivity|]); cbn.
      + eauto.
      + split; [exact Hseg|]. split; [apply lookup_insert_eq|reflexivity].
    - rewrite (run_entry_created _ _ _ _ Hseg Htr). eexists _, _. split; [reflexivity|].
      cbn. split; [exact Hseg|]. split; [apply lookup_insert_eq|reflexivity]. }
  exists w1. eexists. exists t. split; [exact Hrun|]. split; [exact Htr1|].
  split; [exact Htext|].
  rewrite (run_entry_existing _ _ _ _ _ Hseg1 Htr1).
  destruct (decide _); [|contradiction]. split; reflexivity.
Qed.

(** ** Propagation (sync.py, lines 21-41) *)

(** X4: the three ways propagation ends without visiting a child: the
    resource has no translatable submission (nothing happens at all);
    the page existed and was updated, not created; the page could not be
    saved for a reason other than its parent, and that error goes to the
    caller as it is. *)
Theorem propagation_without_a_new_page
    (fuel : nat) (resource : PontoonResource) (language : Language) (w : W) :
  let saving := LogInfo ("Saving translated page for '" +:+ page_title resource +:+
                         "' in " +:+ display_name language) in
  (find_translatable_submission resource language (db w) = None →
     _try_update_resource_translation (S fuel) resource language w = Ok tt w)
  ∧ (∀ submission revision pages,
       find_translatable_submission resource language (db w) = Some submission →
       create_or_update_translated_page submission language (db w)
         = (Returns (revision, false), pages) →
       _try_update_resource_translation (S fuel) resource language w
       = Ok tt (mkWorld (set_cms pages (db w)) (repo w) (clock w) (trace w ++ [saving])))
  ∧ (∀ submission e pages,
       find_translatable_submission resource language (db w) = Some submission →
       create_or_update_translated_page submission language (db w) = (Raises e, pages) →
       e ≠ ParentNotTranslatedError →
       _try_update_resource_translation (S fuel) resource language w
       = Raise e (mkWorld (set_cms pages (db w)) (repo w) (clock w) (trace w ++ [saving]))).
Proof.
  intros saving. split; [|split].
  - intros Hfind. cbn [_try_update_resource_translation]. run. now rewrite Hfind.
  - intros submission revision pages Hfind Hcreate.
    cbn [_try_update_resource_translation]. run. rewrite Hfind. run.
    unfold try_except. run.
    rewrite run_create_or_update_translated_page_call. cbn [db]. rewrite Hcreate.
    cbn [fst snd]. now run.
  - intros submission e pages Hfind Hcreate He.
    cbn [_try_update_resource_translation]. run. rewrite Hfind. run.
    unfold try_except. run.
    rewrite run_create_or_update_translated_page_call. cbn [db]. rewrite Hcreate.
    cbn [fst snd]. run.
    destruct (decide (e = ParentNotTranslatedError)); [contradiction|reflexivity].
Qed.

#[local] Instance ingest_frame_preorder : PreOrder ingest_frame.
Proof.
  split.
  - intros w. now repeat split.
  - intros w1 w2 w3 (? & ? & ? & ? & ? & ? & ?) (? & ? & ? & ? & ? & ? & ?).
    repeat split; congruence.
Qed.

#[local] Instance pages_frame_preorder : PreOrder pages_frame.
Proof.
  split.
  - intros w. now repeat split.
  - intros w1 w2 w3 (Hi1 & ? & ?) (Hi2 & ? & ?).
    split; [etrans; eassumption|split; congruence].
Qed.

Lemma steps_pages_emit D (ev : Event) : steps D pages_frame (emit ev).
Proof. intros w. rewrite run_emit. now repeat split. Qed.

Lemma steps_pages_propagation fuel resource language :
  steps True pages_frame (_try_update_resource_translation fuel resource language).
Proof.
  revert resource. induction fuel as [|fuel IH]; intros resource;
    cbn [_try_update_resource_translation]; [intros w; exact I|].
  apply steps_bind; [apply _|apply steps_query; apply _|].
  intros [submission|]; [|apply steps_ret; apply _].
  apply steps_bind; [apply _|apply steps_pages_emit|intros _].
  apply steps_bind; [apply _| |intros [[revision created]|]].
  - apply steps_try_except; [apply _| |].
    + apply steps_bind; [apply _| |intros r; apply steps_ret; apply _].
      intros w. rewrite run_create_or_update_translated_page_call.
      destruct (create_or_update_translated_page submission language (db w)) as [[r|e] pages];
        cbn; now repeat split.
    + apply steps_bind; [apply _|apply steps_pages_emit|intros _; apply steps_ret; apply _].
  - destruct created; [|apply steps_ret; apply _].
    apply steps_bind; [apply _|apply steps_query; apply _|intros children].
    apply steps_for_each; [apply _|]. intros child. apply IH.
  - apply steps_raise; apply _.
Qed.

(** X5: however deep the cascade goes and however it ends, propagation
    writes nothing but pages: logs, log resources, submissions,
    resources, languages, segments and Translations are as before, and
    so are the repository and the clock. *)
Theorem propagation_writes_only_pages
    (fuel : nat) (resource : PontoonResource) (language : Language) (w : W) :
  match _try_update_resource_translation fuel resource language w with
  | Ok _ w' | Raise _ w' =>
      db w' = set_cms (cms (db w')) (db w) ∧ repo w' = repo w ∧ clock w' = clock w
  | OutOfFuel => True
  end.
Proof.
  pose proof (steps_pages_propagation fuel resource language w) as Hsteps.
  assert (∀ w' : W, pages_frame w w' →
                    db w' = set_cms (cms (db w')) (db w) ∧ repo w' = repo w
                    ∧ clock w' = clock w) as Hframe.
  { intros w' ((Hl & Hr & Hs & Hres & Hla & Hseg & Hrepo) & Htr & Hclock).
    split; [|now split]. destruct (db w'), (db w). cbn in *. now subst. }
  destruct (_try_update_resource_translation fuel resource language w);
    [now apply Hframe..|exact I].
Qed.

(** ** The pull (sync.py, lines 44-103) *)

Lemma steps_ingest_entry D language changed_entry :
  steps D ingest_frame (_pull_changed_entry language changed_entry).
Proof.
  intros w.
  pose proof (entry_outcome language [changed_entry] changed_entry w ltac:(left)) as He.
  destruct (_pull_changed_entry language changed_entry w); [apply He..|contradiction].
Qed.

Lemma steps_ingest_propagation fuel resource language :
  steps True ingest_frame (_try_update_resource_translation fuel resource language).
Proof.
  intros w. pose proof (steps_pages_propagation fuel resource language w) as Hp.
  destruct (_try_update_resource_translation fuel resource language w);
    [apply Hp..|exact I].
Qed.

Lemma ingest_frame_rollback (w w' : W) :
  ingest_frame w w' → ingest_frame w (with_db (db w) w').
Proof. intros (? & ? & ? & ? & ? & ? & ?). now repeat split. Qed.

(** A changed file that is processed to the end has been resolved, and
    has left one SyncLogResource for the log. *)
Lemma changed_file_Ok_inv fuel log filename old_content new_content (w w' : W) :
  _pull_changed_file fuel log (filename, old_content, new_content) w = Ok tt w' →
  ∃ resource language,
    get_by_po_filename filename (db w) = Returns (resource, language)
    ∧ sync_log_resources (db w')
      = sync_log_resources (db w)
        ++ [mkSyncLogResource (log_id log) (resource_id resource)
                              (Some (language_id language))]
    ∧ sync_logs (db w') = sync_logs (db w)
    ∧ repo w' = repo w.
Proof.
  unfold _pull_changed_file. run.
  destruct (get_by_po_filename filename (db w)) as [[resource language]|e0]; run;
    [|intros [=]].
  destruct (decode_utf8 old_content) as [s_old|e0]; run; [|intros [=]].
  destruct (polib_pofile 78 s_old) as [old_po|e0]; run; [|intros [=]].
  destruct (decode_utf8 new_content) as [s_new|e0]; run; [|intros [=]].
  destruct (polib_pofile 78 s_new) as [new_po|e0]; run; [|intros [=]].
  intros Hblock. apply atomic_Ok_inv in Hblock.
  eapply (steps_Ok True ingest_frame) in Hblock.
  - destruct Hblock as (Hl & Hr & _ & _ & _ & _ & Hrepo). cbn in *. eauto 6.
  - apply steps_bind; [apply _| |intros _; apply steps_ingest_propagation].
    apply steps_for_each; [apply _|]. intros e. apply steps_ingest_entry.
Qed.

Lemma changed_files_Ok_inv fuel log changed (w w' : W) :
  for_each changed (_pull_changed_file fuel log) w = Ok tt w' →
  ∃ rows,
    sync_log_resources (db w') = sync_log_resources (db w) ++ rows
    ∧ length rows = length changed
    ∧ Forall (λ row, slr_log row = log_id log ∧ is_Some (slr_language row)) rows
    ∧ sync_logs (db w') = sync_logs (db w)
    ∧ repo w' = repo w.
Proof.
  revert w. induction changed as [|[[filename old_content] new_content] changed IH];
    intros w; cbn [for_each].
  - rewrite run_ret. intros [= <-]. exists []. now rewrite app_nil_r.
  - intros Hrun. apply bind_Ok_inv in Hrun as ([] & w1 & Hfile & Hrest).
    apply changed_file_Ok_inv in Hfile as (resource & language & _ & Hr1 & Hl1 & Hrepo1).
    apply IH in Hrest as (rows & Hr & Hlen & Hall & Hl & Hrepo).
    eexists (_ :: rows). rewrite Hr, Hr1, <- app_assoc. split; [reflexivity|].
    split; [cbn; now rewrite Hlen|]. split; [|split; congruence].
    constructor; [|exact Hall]. cbn. eauto.
Qed.

(** X6: a pull that returns has recorded exactly one SyncLogResource
    per changed file reported by the repository (none at the
    watermark), each linked to the PULL log this pull created and each
    with a language; earlier rows are kept, in place. *)
Theorem pull_records_one_resource_per_changed_file (fuel : nat) (w w' : W) :
  _pull fuel w = Ok tt w' →
  let head := get_head_commit_id (repo w) in
  let changed :=
    if decide (last_commit_id_of (db w) = Some head) then []
    else get_changed_files (last_commit_id_of (db w)) head (repo w) in
  ∃ rows,
    sync_log_resources (db w') = sync_log_resources (db w) ++ rows
    ∧ length rows = length changed
    ∧ Forall (λ row, slr_log row = log_id (new_log ACTION_PULL head w)
                     ∧ is_Some (slr_language row)) rows
    ∧ sync_logs (db w') = sync_logs (db w) ++ [new_log ACTION_PULL head w].
Proof.
  intros Hpull head changed. subst head changed.
  apply atomic_Ok_inv in Hpull. revert Hpull. run.
  destruct (decide _) as [Hsame|Hdiff]; run.
  - intros [= <-]. exists []. cbn. now rewrite app_nil_r.
  - intros Hloop. apply changed_files_Ok_inv in Hloop as (rows & Hr & Hlen & Hall & Hl & _).
    exists rows. cbn in *. auto.
Qed.

(** X7: a changed file whose path the catalogue cannot resolve is not
    skipped, in whatever position it comes among the changed files: its
    error leaves [_pull] right after the file was announced, and the
    pull is rolled back, with its log and with the rows that the files
    before it had brought. *)
Theorem pull_fails_on_an_unrecognised_file
    (fuel : nat) (w : W) (before : list (Filename * string * string))
    (filename : Filename) (old_content new_content : string)
    (rest : list (Filename * string * string)) (w1 : W) (e : exn) :
  let head := get_head_commit_id (repo w) in
  let last := last_commit_id_of (db w) in
  let log := new_log ACTION_PULL head w in
  last ≠ Some head →
  get_changed_files last head (repo w)
    = before ++ (filename, old_content, new_content) :: rest →
  for_each before (_pull_changed_file fuel log)
    (mkWorld (set_sync_logs (λ l, l ++ [log]) (db w)) (repo w) (S (clock w))
             (trace w ++ [GetChangedFiles last head])) = Ok tt w1 →
  get_by_po_filename filename (db w1) = Raises e →
  _pull fuel w
  = Raise e (mkWorld (db w) (repo w) (clock w1)
               (trace w1
                ++ [LogInfo ("Pull: Importing changes in file '" +:+ filename +:+ "'")]))
  ∧ sync_logs (db w1) = sync_logs (db w) ++ [log]
  ∧ length (sync_log_resources (db w1))
    = (length (sync_log_resources (db w)) + length before)%nat.
Proof.
  intros head last log Hlast Hchanged Hbefore Hresolve.
  assert (_pull_changed_file fuel log (filename, old_content, new_content) w1
          = Raise e (mkWorld (db w1) (repo w1) (clock w1)
                       (trace w1 ++ [LogInfo ("Pull: Importing changes in file '"
                                              +:+ filename +:+ "'")]))) as Hfile.
  { unfold _pull_changed_file. run. rewrite Hresolve. now run. }
  pose proof (pull_aborts_at_a_failing_file fuel w before _ rest w1 _ e
                Hlast Hchanged Hbefore Hfile) as Hpull.
  apply changed_files_Ok_inv in Hbefore as (rows & Hrows & Hlen & _ & Hlogs & Hrepo).
  cbn [db repo] in Hrows, Hlogs, Hrepo.
  split; [|split].
  - rewrite Hpull. unfold with_db. cbn [db repo clock trace]. now rewrite Hrepo.
  - exact Hlogs.
  - now rewrite Hrows, length_app, Hlen.
Qed.

(** X8: a pull that returns sets the watermark to the head, so a pull
    right after it, with the head where it was, imports nothing: it adds
    its log and the "no changes" record and stops, whatever the first
    one imported. *)
Theorem pull_after_pull_is_noop (fuel fuel' : nat) (w w1 : W) :
  logs_in_past w →
  get_head_commit_id (repo w) ≠ "" →
  _pull fuel w = Ok tt w1 →
  last_commit_id_of (db w1) = Some (get_head_commit_id (repo w))
  ∧ _pull fuel' w1
    = Ok tt (mkWorld
               (set_sync_logs
                  (λ l, l ++ [new_log ACTION_PULL (get_head_commit_id (repo w)) w1]) (db w1))
               (repo w) (S (clock w1))
               (trace w1 ++ [LogInfo "Pull: No changes since last sync"])).
Proof.
  intros Hpast Hhead Hpull.
  apply pull_Ok_inv in Hpull as (Hlogs & _ & _ & Hrepo & _).
  assert (last_commit_id_of (db w1) = Some (get_head_commit_id (repo w))) as Hmark.
  { unfold last_commit_id_of. rewrite Hlogs. apply watermark_snoc; [exact Hhead|].
    intros y Hy. apply Hpast in Hy. exact Hy. }
  split; [exact Hmark|].
  rewrite run_pull_at_watermark by now rewrite Hrepo.
  now rewrite Hrepo.
Qed.

(** ** [update_po] (sync.py, lines 112-125) *)

Lemma update_po_outcome_cases filename new_po_string (w : W) :
  (∃ content, update_po filename new_po_string w
              = Ok tt (after_write_file filename content w))
  ∨ (∃ e, update_po filename new_po_string w = Raise e w ∧ e ≠ KeyError).
Proof.
  unfold update_po, try_except. run.
  assert (∀ e : exn,
            (∃ content,
               match (if decide (e = KeyError) then Ok new_po_string w else Raise e w)
               with
               | Ok a w' => (emit (WriteFile filename a);;
                             modify_repo (write_file filename a)) w'
               | Raise e0 w' => Raise e0 w'
               | OutOfFuel => OutOfFuel
               end = Ok tt (after_write_file filename content w))
            ∨ (∃ e', match (if decide (e = KeyError) then Ok new_po_string w else Raise e w)
                     with
                     | Ok a w' => (emit (WriteFile filename a);;
                                   modify_repo (write_file filename a)) w'
                     | Raise e0 w' => Raise e0 w'
                     | OutOfFuel => OutOfFuel
                     end = Raise e' w ∧ e' ≠ KeyError)) as Hraise.
  { intros e. destruct (decide (e = KeyError)); [left|right]; eauto. }
  destruct (read_file filename (repo w)) as [bytes|e]; run; [|apply Hraise].
  destruct (decode_utf8 bytes) as [s|e]; run; [|apply Hraise].
  destruct (polib_pofile 200 s) as [current_po|e]; run; [|apply Hraise].
  destruct (polib_pofile 200 new_po_string) as [new_po|e]; run; [|apply Hraise].
  left. eauto.
Qed.


(** ** The push: what it writes (sync.py, lines 127-143) *)

Lemma update_po_Ok_inv filename new_po_string (w w' : W) :
  update_po filename new_po_string w = Ok tt w' →
  ∃ content, w' = after_write_file filename content w.
Proof.
  destruct (update_po_outcome_cases filename new_po_string w)
    as [[content ->]|(e & -> & He)]; [|discriminate].
  intros [= <-]. eauto.
Qed.

Lemma wrote_trans written1 written2 (w1 w2 w3 : W) :
  wrote written1 w1 w2 → wrote written2 w2 w3 → wrote (written1 ++ written2) w1 w3.
Proof.
  intros (Hd1 & Hc1 & Ht1) (Hd2 & Hc2 & Ht2). repeat split; [congruence..|].
  unfold write_events in *. now rewrite Ht2, Ht1, fmap_app, app_assoc.
Qed.

Lemma language_files_Ok_inv resource languages (w w' : W) :
  for_each languages (λ language,
    locale_po ← query (generate_language_pofile resource language);
    update_po (get_po_filename resource (Some language)) locale_po) w = Ok tt w' →
  ∃ written, wrote written w w'
             ∧ written.*1 = (λ language, get_po_filename resource (Some language)) <$> languages.
Proof.
  revert w. induction languages as [|language languages IH]; intros w; cbn [for_each].
  - rewrite run_ret. intros [= <-]. exists []. repeat split. cbn. now rewrite app_nil_r.
  - intros Hrun. apply bind_Ok_inv in Hrun as ([] & w1 & Hone & Hrest).
    apply bind_Ok_inv in Hone as (locale_po & w0 & Hq & Hone).
    rewrite run_query in Hq. injection Hq as <- <-.
    apply update_po_Ok_inv in Hone as [content ->].
    apply IH in Hrest as (written & Hw & Hnames).
    exists ((get_po_filename resource (Some language), content) :: written).
    split; [|cbn; now rewrite Hnames].
    apply (wrote_trans [(get_po_filename resource (Some language), content)] written _
             (after_write_file (get_po_filename resource (Some language)) content w));
      [|exact Hw].
    now repeat split.
Qed.

Lemma push_submission_Ok_inv languages item paths ids (w w' : W) paths' ids' :
  _push_submission languages item (paths, ids) w = Ok (paths', ids') w' →
  ∃ written,
    wrote written w w'
    ∧ written.*1 = files_of languages item
    ∧ paths' = paths ++ [(get_po_filename item.2 None,
                          get_locale_po_filename_template item.2)].
Proof.
  destruct item as [submission resource]. unfold _push_submission. intros Hrun.
  apply bind_Ok_inv in Hrun as (source_po & w0 & Hq & Hrun).
  rewrite run_query in Hq. injection Hq as <- <-.
  apply bind_Ok_inv in Hrun as ([] & w2 & Hsource & Hrun).
  apply update_po_Ok_inv in Hsource as [content ->].
  apply bind_Ok_inv in Hrun as ([] & w3 & Hlangs & Hrun).
  apply language_files_Ok_inv in Hlangs as (written & Hw & Hnames).
  rewrite run_ret in Hrun. injection Hrun as <- <- <-.
  exists ((get_po_filename resource None, content) :: written).
  split; [|split; [|reflexivity]].
  - apply (wrote_trans [(get_po_filename resource None, content)] written _
             (after_write_file (get_po_filename resource None) content w)); [|exact Hw].
    now repeat split.
  - unfold files_of. cbn. now rewrite Hnames.
Qed.

Lemma push_loop_Ok_inv languages current paths ids (w w' : W) paths' ids' :
  for_acc current (paths, ids) (_push_submission languages) w = Ok (paths', ids') w' →
  ∃ written,
    wrote written w w'
    ∧ written.*1 = mjoin (files_of languages <$> current)
    ∧ paths' = paths ++ ((λ item, (get_po_filename item.2 None,
                                   get_locale_po_filename_template item.2)) <$> current).
Proof.
  revert paths ids w. induction current as [|item current IH]; intros paths ids w;
    cbn [for_acc].
  - rewrite run_ret. intros [= <- _ <-]. exists []. rewrite app_nil_r.
    repeat split. cbn. now rewrite app_nil_r.
  - intros Hrun. apply bind_Ok_inv in Hrun as ([paths1 ids1] & w1 & Hitem & Hrun).
    apply push_submission_Ok_inv in Hitem as (written1 & Hw1 & Hn1 & ->).
    apply IH in Hrun as (written2 & Hw2 & Hn2 & ->).
    exists (written1 ++ written2). split; [eapply wrote_trans; eassumption|].
    split; [|now rewrite <- app_assoc].
    rewrite fmap_app, Hn1, Hn2. reflexivity.
Qed.

Lemma push_log_events (ids : list nat) (w w' : W) :
  _push_log ids w = Ok tt w' →
  ∃ rest, trace w' = trace w ++ rest ∧ Forall (λ ev, ¬ is_write ev) rest.
Proof.
  destruct (decide (pushed_submissions ids (db w) = [])) as [Hnone|Hnew].
  - rewrite push_log_nothing_new by assumption. intros [= <-].
    eexists. split; [reflexivity|]. repeat constructor; auto.
  - destruct (has_changes (repo w)) eqn:Hchanges.
    + rewrite push_log_with_commit by assumption. intros [= <-]. cbn.
      exists [LogInfo "Push: Committing changes"; Commit "Updates to source content";
              RepoPush].
      split; [now rewrite <- !app_assoc|]. repeat constructor; auto.
    + rewrite push_log_without_commit by assumption. intros [= <-]. cbn.
      eexists [LogInfo _; RepoPush].
      split; [now rewrite <- !app_assoc|]. repeat constructor; auto.
Qed.

#[local] Instance path_le_total : Total path_le.
Proof. intros a b. apply String.leb_total. Qed.

Lemma current_submissions_sorted (d : DB CMS) : Sorted path_le (current_submissions d).
Proof. apply Sorted_merge_sort, _. Qed.

(** X10: a push that returns has written, in this order, for each
    current submission in path order the source file and then one file
    per active non-default language, and nothing else; then the
    manifest, once, with the tags of those languages and one path pair
    per current submission; no file is written after the manifest. *)
Theorem push_writes_the_files_then_the_manifest (w w' : W) :
  _push w = Ok tt w' →
  let languages := active_languages (db w) in
  let current := current_submissions (db w) in
  ∃ written rest,
    trace w'
      = trace w ++ write_events written
        ++ [WriteConfig (rfc5646_language_tag <$> languages)
              ((λ item, (get_po_filename item.2 None,
                         get_locale_po_filename_template item.2)) <$> current)]
        ++ rest
    ∧ written.*1 = mjoin (files_of languages <$> current)
    ∧ Forall (λ ev, ¬ is_write ev) rest
    ∧ Sorted path_le current.
Proof.
  intros Hpush languages current. subst languages current.
  apply atomic_Ok_inv in Hpush. revert Hpush. run.
  destruct (for_acc _ _ _ _) as [[paths ids] w5|e w5|] eqn:Hloop; [|intros [=]..].
  apply push_loop_Ok_inv in Hloop as (written & (Hdb & Hclock & Htrace) & Hnames & ->).
  run. intros Hlog. apply push_log_events in Hlog as (rest & Hrest & Hnot).
  exists written, rest. cbn in *. rewrite Hrest, Htrace.
  split; [now rewrite <- !app_assoc|]. split; [exact Hnames|]. split; [exact Hnot|].
  apply current_submissions_sorted.
Qed.

(** ** The push: what it records (sync.py, lines 145-175) *)

Lemma mark_pushed_nothing_new ids now log (subs : list PontoonResourceSubmission) :
  filter (λ s, submission_id s ∈ ids ∧ push_log s = None) subs = [] →
  map (mark_pushed ids now log) subs = subs.
Proof.
  intros Hnone. induction subs as [|s subs IH]; [reflexivity|]. cbn [map].
  assert (¬ (submission_id s ∈ ids ∧ push_log s = None)) as Hs.
  { intros Hs. rewrite filter_cons_True in Hnone by exact Hs. discriminate. }
  rewrite filter_cons_False in Hnone by exact Hs.
  rewrite IH by exact Hnone. unfold mark_pushed.
  destruct (decide _); [contradiction|reflexivity].
Qed.

(** What [_push_log] leaves in the datastore, in all its cases. *)
Lemma push_log_Ok_inv (ids : list nat) (w w' : W) :
  _push_log ids w = Ok tt w' →
  let log := new_log ACTION_PUSH "" w in
  submissions (db w') = map (mark_pushed ids (S (clock w)) log) (submissions (db w))
  ∧ sync_log_resources (db w')
    = sync_log_resources (db w)
      ++ ((λ s, mkSyncLogResource (log_id log) (sub_resource_id s) None)
          <$> pushed_submissions ids (db w))
  ∧ translations (db w') = translations (db w)
  ∧ segments (db w') = segments (db w)
  ∧ cms (db w') = cms (db w)
  ∧ resources (db w') = resources (db w)
  ∧ languages (db w') = languages (db w).
Proof.
  intros Hlog log. subst log. revert Hlog.
  destruct (decide (pushed_submissions ids (db w) = [])) as [Hnone|Hnew].
  - rewrite push_log_nothing_new by assumption. intros [= <-]. cbn.
    rewrite Hnone, app_nil_r. split; [|now repeat split].
    symmetry. now apply mark_pushed_nothing_new.
  - destruct (has_changes (repo w)) eqn:Hchanges.
    + rewrite push_log_with_commit by assumption. intros [= <-]. cbn.
      rewrite <- list_fmap_compose. now repeat split.
    + rewrite push_log_without_commit by assumption. intros [= <-]. cbn.
      rewrite <- list_fmap_compose. now repeat split.
Qed.

(** A push that returns: the world after the files and the manifest,
    from which [_push_log] runs. *)
Lemma push_Ok_split (w w' : W) :
  _push w = Ok tt w' →
  ∃ w2, db w2 = db w ∧ clock w2 = clock w
        ∧ _push_log (current_submission_ids (db w)) w2 = Ok tt w'.
Proof.
  intros Hpush.
  destruct (push_outcome w) as [(e & w0 & Hraise & _)|(w2 & w0 & Hw & Hlog & Hok)];
    [congruence|].
  rewrite Hpush in Hok. injection Hok as <-.
  destruct Hw as (Hdb & Hclock & _). eauto.
Qed.

(** X11: whether it returns or raises, a push never touches the
    Translations, the segments, the pages, the resources or the
    languages; and it needs no fuel. *)
Theorem push_leaves_the_segment_store_alone (w : W) :
  match _push w with
  | Ok _ w' | Raise _ w' =>
      translations (db w') = translations (db w)
      ∧ segments (db w') = segments (db w)
      ∧ cms (db w') = cms (db w)
      ∧ resources (db w') = resources (db w)
      ∧ languages (db w') = languages (db w)
  | OutOfFuel => False
  end.
Proof.
  destruct (push_outcome w) as [(e & w' & -> & ->)|(w2 & w' & Hw & Hlog & ->)];
    [now repeat split|].
  destruct Hw as (Hdb & _).
  apply push_log_Ok_inv in Hlog as (_ & _ & Ht & Hs & Hc & Hr & Hl).
  rewrite Hdb in *. now repeat split.
Qed.

(** X12: a push that returns keeps the table of submissions row for
    row, and changes exactly the rows that are current and were never
    pushed: those take the time of the push and its log.  A row pushed
    before keeps its [pushed_at] and [push_log]; a stale row is not
    marked. *)
Theorem push_stamps_only_new_current_submissions (w w' : W) :
  _push w = Ok tt w' →
  let ids := current_submission_ids (db w) in
  length (submissions (db w')) = length (submissions (db w))
  ∧ ∀ i s, submissions (db w) !! i = Some s →
      (push_log s ≠ None ∨ submission_id s ∉ ids → submissions (db w') !! i = Some s)
      ∧ (push_log s = None → submission_id s ∈ ids →
         submissions (db w') !! i
         = Some (mkSubmission (submission_id s) (sub_resource_id s) (revision_id s)
                   (Some (S (clock w)))
                   (Some (next_id (log_id <$> sync_logs (db w)))))).
Proof.
  intros Hpush ids. subst ids.
  apply push_Ok_split in Hpush as (w2 & Hdb & Hclock & Hlog).
  apply push_log_Ok_inv in Hlog as (Hsubs & _).
  unfold new_log in Hsubs. cbn [log_id] in Hsubs. rewrite Hdb, Hclock in Hsubs.
  rewrite Hsubs. split; [apply length_map|].
  intros i s Hi. change (map ?f ?l) with (f <$> l).
  rewrite list_lookup_fmap, Hi. cbn. unfold mark_pushed. split.
  - intros Hkeep. destruct (decide _) as [[Hin Hnone]|]; [|reflexivity].
    destruct Hkeep; contradiction.
  - intros Hnone Hin. destruct (decide _) as [|Hnot]; [reflexivity|].
    destruct Hnot. now split.
Qed.

(** X13: a push that returns adds one SyncLogResource per submission it
    pushed for the first time, in table order, each with the resource of
    the submission, no language, and the key of the PUSH log; when
    nothing was new it adds none. *)
Theorem push_records_one_resource_per_new_submission (w w' : W) :
  _push w = Ok tt w' →
  sync_log_resources (db w')
  = sync_log_resources (db w)
    ++ ((λ s, mkSyncLogResource (next_id (log_id <$> sync_logs (db w)))
                (sub_resource_id s) None)
        <$> pushed_submissions (current_submission_ids (db w)) (db w)).
Proof.
  intros Hpush.
  apply push_Ok_split in Hpush as (w2 & Hdb & Hclock & Hlog).
  apply push_log_Ok_inv in Hlog as (_ & Hslr & _).
  unfold new_log in Hslr. cbn [log_id] in Hslr. rewrite Hdb in Hslr. exact Hslr.
Qed.





(** ** [sync] (sync.py, lines 182-190) *)

(** X15: pull and push are two transactions.  When [sync] raises, the
    error is that of the pull, and then the datastore is what it was
    before the sync; or the pull had returned and the error is that of
    the push, and then what the pull wrote, its log first, stays
    committed. *)
Theorem sync_failure_keeps_a_finished_pull (fuel : nat) (w w' : W) (e : exn) :
  let pulled :=
    mkWorld (db w) (repo_pull (repo w)) (clock w)
            ((trace w ++ [LogInfo "Pulling repository"]) ++ [RepoPull]) in
  sync fuel w = Raise e w' →
  (_pull fuel pulled = Raise e w' ∧ db w' = db w)
  ∨ (∃ w1, _pull fuel pulled = Ok tt w1
           ∧ _push w1 = Raise e w'
           ∧ db w' = db w1
           ∧ sync_logs (db w')
             = sync_logs (db w)
               ++ [new_log ACTION_PULL (get_head_commit_id (repo_pull (repo w))) w]).
Proof.
  intros pulled. unfold sync. run. fold pulled.
  destruct (_pull fuel pulled) as [[] w1|e1 w1|] eqn:Hpull; [| |intros [=]].
  - run. destruct (_push w1) as [[] w2|e2 w2|] eqn:Hpush; [run; intros [=]| |intros [=]].
    intros [= <- <-]. right. exists w1.
    pose proof (atomic_Raise_inv _ _ _ _ Hpush) as Hdb.
    apply pull_Ok_inv in Hpull as (Hlogs & _).
    split; [reflexivity|]. split; [exact Hpush|]. split; [exact Hdb|].
    now rewrite Hdb, Hlogs.
  - intros [= <- <-]. left. split; [reflexivity|].
    exact (atomic_Raise_inv _ _ _ _ Hpull).
Qed.

(** ** The command's push (sync_pontoon.py, lines 94-147) *)

Lemma handle_push_log_no_changes (ids : list nat) (w : W) :
  has_changes (repo w) = false →
  handle_push_log ids w
  = Ok tt (mkWorld (db w) (repo w) (clock w)
             (trace w ++ [Stdout "Push: No changes since last sync"])).
Proof. intros Hchanges. unfold handle_push_log. run. rewrite Hchanges. now run. Qed.

Lemma handle_push_log_changes (ids : list nat) (w : W) :
  has_changes (repo w) = true →
  let committed := commit "Updates to source content" (repo w) in
  let log := new_log ACTION_PUSH (get_head_commit_id committed) w in
  handle_push_log ids w
  = Ok tt (mkWorld
             (set_submissions (map (mark_pushed_again ids (S (clock w)) log))
                (set_sync_logs (λ l, l ++ [log]) (db w)))
             (repo_push committed) (S (S (clock w)))
             (((trace w ++ [Stdout "Push: Committing changes"])
               ++ [Commit "Updates to source content"])
               ++ [RepoPush])).
Proof.
  intros Hchanges committed log. unfold handle_push_log.
  rewrite run_bind, run_gets, Hchanges. reflexivity.
Qed.

(** [handle_push] either raises while it writes the files, or writes
    them and ends as [handle_push_log] does. *)
Lemma handle_push_outcome (w : W) :
  (∃ e w', handle_push w = Raise e w' ∧ only_writes w w')
  ∨ (∃ w2, only_writes w w2
           ∧ handle_push w = handle_push_log (current_submission_ids (db w)) w2).
Proof.
  unfold handle_push, atomic. run.
  set (w1 := mkWorld (db w) (copy_unmanaged_files (repo_writer (repo w))) (clock w) (trace w)).
  assert (only_writes w w1) as Hw1.
  { repeat split; [|exists []; now rewrite app_nil_r].
    cbn. etrans; apply rtc_once; constructor. }
  pose proof (steps_for_acc False only_writes (current_submissions (db w)) ([], [])
                (_push_submission (active_languages (db w)))
                (λ item acc, steps_push_submission False _ item acc) w1) as Hloop.
  destruct (for_acc _ _ _ w1) as [[paths ids] w5|e w5|] eqn:Hrun; [| |contradiction].
  - apply push_loop_ids in Hrun. cbn [app] in Hrun. subst ids.
    destruct Hloop as (Hdb & Hclock & Hrepo & evs & Htrace & Hevs).
    run. fold (current_submission_ids (db w)).
    match goal with |- context [handle_push_log ?ids ?w7] => set (w2 := w7) end.
    right. exists w2. split.
    + etrans; [exact Hw1|]. repeat split; cbn.
      * exact Hdb.
      * exact Hclock.
      * etrans; [exact Hrepo|]. apply rtc_once. constructor.
      * exists (evs ++ [WriteConfig (rfc5646_language_tag <$> active_languages (db w)) paths]).
        rewrite Htrace, app_assoc. split; [reflexivity|].
        apply Forall_app. split; [exact Hevs|]. now repeat constructor.
    + destruct (has_changes (repo w2)) eqn:Hc.
      * now rewrite !handle_push_log_changes by exact Hc.
      * now rewrite !handle_push_log_no_changes by exact Hc.
  - left. eexists _, _. split; [reflexivity|].
    etrans; [exact Hw1|]. destruct Hloop as (Hdb & Hclock & Hrepo & Hevs).
    now repeat split.
Qed.

(** X16: the command's push, when it returns.  If the writer reports no
    change, the datastore is untouched and nothing is committed or
    pushed, whatever submissions are waiting.  If it reports changes,
    they are committed first, one PUSH log is created with the head
    that the commit produced, every current submission is marked with
    that log and the time, also one that had been pushed before, and
    the repository is pushed last. *)
Theorem command_push_logs_only_a_commit (w w' : W) :
  handle_push w = Ok tt w' →
  ∃ r2 evs,
    rtc writer_step (repo w) r2
    ∧ Forall is_write evs
    ∧ if has_changes r2
      then
        let committed := commit "Updates to source content" r2 in
        let log := mkSyncLog (next_id (log_id <$> sync_logs (db w))) ACTION_PUSH
                             (get_head_commit_id committed) (clock w) in
        sync_logs (db w') = sync_logs (db w) ++ [log]
        ∧ submissions (db w')
          = mark_pushed_again (current_submission_ids (db w)) (S (clock w)) log
            <$> submissions (db w)
        ∧ translations (db w') = translations (db w)
        ∧ repo w' = repo_push committed
        ∧ trace w'
          = trace w ++ evs ++ [Stdout "Push: Committing changes";
                               Commit "Updates to source content"; RepoPush]
      else
        db w' = db w
        ∧ repo w' = r2
        ∧ trace w' = trace w ++ evs ++ [Stdout "Push: No changes since last sync"].
Proof.
  intros Hpush.
  destruct (handle_push_outcome w) as [(e & w0 & Hraise & _)|(w2 & Hw & Hlog)];
    [congruence|].
  rewrite Hpush in Hlog. destruct Hw as (Hdb & Hclock & Hrepo & evs & Htrace & Hevs).
  exists (repo w2), evs. split; [exact Hrepo|]. split; [exact Hevs|].
  destruct (has_changes (repo w2)) eqn:Hchanges.
  - rewrite handle_push_log_changes in Hlog by exact Hchanges.
    injection Hlog as ->. unfold new_log. cbn. rewrite Hdb, Hclock, Htrace.
    repeat split. now rewrite <- !app_assoc.
  - rewrite handle_push_log_no_changes in Hlog by exact Hchanges.
    injection Hlog as ->. cbn. rewrite Htrace. repeat split; [exact Hdb|].
    now rewrite <- app_assoc.
Qed.

(** ** The command, run twice (sync_pontoon.py, lines 41-157) *)

Lemma steps_handle_pull_changed_entry D language changed_entry :
  steps D pull_frame (handle_pull_changed_entry language changed_entry).
Proof.
  unfold handle_pull_changed_entry. apply steps_try_except; [apply _| |pull_frame_step].
  apply steps_bind; [apply _| |intros segment].
  { unfold Segment_objects_get. apply steps_bind; [apply _|apply steps_query; apply _|].
    intros [segment|]; [apply steps_ret|apply steps_raise]; apply _. }
  apply steps_bind; [apply _|pull_frame_step|intros now].
  apply steps_bind; [apply _| |intros [translation created]].
  { unfold translations_get_or_create.
    apply steps_bind; [apply _|apply steps_query; apply _|].
    intros [translation|]; [apply steps_ret; apply _|].
    apply steps_bind; [apply _|pull_frame_step|intros _; apply steps_ret; apply _]. }
  destruct created; cbn [negb]; [apply steps_ret; apply _|].
  destruct (decide _); [|apply steps_ret; apply _].
  apply steps_bind; [apply _|pull_frame_step|intros now'].
  pull_frame_step.
Qed.

Lemma steps_command_propagation fuel resource language :
  steps True pull_frame (try_update_resource_translation fuel resource language).
Proof.
  revert resource. induction fuel as [|fuel IH]; intros resource;
    cbn [try_update_resource_translation]; [intros w; exact I|].
  apply steps_bind; [apply _|apply steps_query; apply _|].
  intros [submission|]; [|apply steps_ret; apply _].
  apply steps_bind; [apply _|pull_frame_step|intros _].
  apply steps_bind; [apply _| |intros [[revision created]|]].
  - apply steps_try_except; [apply _| |].
    + apply steps_bind; [apply _| |intros r; apply steps_ret; apply _].
      apply steps_atomic; [apply pull_frame_rollback|].
      intros w. rewrite run_create_or_update_translated_page_call.
      destruct (create_or_update_translated_page submission language (db w)) as [[r|e] pages];
        cbn; now repeat split.
    + apply steps_bind; [apply _|pull_frame_step|intros _; apply steps_ret; apply _].
  - destruct created; [|apply steps_ret; apply _].
    apply steps_bind; [apply _|apply steps_query; apply _|intros children].
    apply steps_for_each; [apply _|]. intros child. apply IH.
  - apply steps_raise; apply _.
Qed.

Lemma steps_handle_pull_changed_file fuel file :
  steps True pull_frame (handle_pull_changed_file fuel file).
Proof.
  destruct file as [[filename old_content] new_content]. unfold handle_pull_changed_file.
  apply steps_bind; [apply _|pull_frame_step|intros _].
  apply steps_bind; [apply _| |intros [resource language]].
  { apply steps_bind; [apply _|apply steps_query; apply _|intros r; apply steps_lift; apply _]. }
  apply steps_bind; [apply _| |intros old_po].
  { apply steps_bind; [apply _|apply steps_lift; apply _|intros s; apply steps_lift; apply _]. }
  apply steps_bind; [apply _| |intros new_po].
  { apply steps_bind; [apply _|apply steps_lift; apply _|intros s; apply steps_lift; apply _]. }
  apply steps_atomic; [apply pull_frame_rollback|].
  apply steps_bind; [apply _| |intros _; apply steps_command_propagation].
  apply steps_for_each; [apply _|]. intros e. apply steps_handle_pull_changed_entry.
Qed.

Lemma handle_pull_Ok_inv (fuel : nat) (w w' : W) :
  handle_pull fuel w = Ok tt w' →
  sync_logs (db w')
    = sync_logs (db w) ++ [new_log ACTION_PULL (get_head_commit_id (repo w)) w]
  ∧ repo w' = repo w
  ∧ (clock w < clock w')%nat.
Proof.
  intros Hpull. apply atomic_Ok_inv in Hpull. revert Hpull. run.
  destruct (decide _) as [Hsame|Hdiff]; run.
  - intros [= <-]. cbn. repeat split. lia.
  - intros Hloop.
    eapply (steps_Ok True pull_frame) in Hloop;
      [|apply steps_for_each; [apply _|]; intros; apply steps_handle_pull_changed_file].
    destruct Hloop as (Hlogs & _ & _ & Hrepo & Hclock). cbn in *.
    repeat split; [assumption..|lia].
Qed.

Section CommandTwice.

(** Asked of the repository adapter: the head moves on a commit only. *)
Hypothesis writer_keeps_head :
  ∀ r r', writer_step r r' → get_head_commit_id r' = get_head_commit_id r.
Hypothesis push_keeps_head :
  ∀ r, get_head_commit_id (repo_push r) = get_head_commit_id r.

(** X17: after a run of the command that returned, the most recent
    log records the head the run left, whether its push committed or
    not; so the pull of the next run, with the head where it was,
    imports nothing: it adds its log, prints "no changes" and stops.
    Commit ids need not be non-empty for this, as this handler does
    not set logs with an empty commit id aside. *)
Theorem command_rerun_pulls_nothing (fuel fuel' : nat) (w0 w1 : W) :
  logs_in_past w0 →
  handle fuel w0 = Ok tt w1 →
  get_head_commit_id (repo_pull (repo w1)) = get_head_commit_id (repo w1) →
  commit_id <$> first_by_time_desc (sync_logs (db w1))
    = Some (get_head_commit_id (repo w1))
  ∧ (emit RepoPull;; modify_repo repo_pull;; handle_pull fuel') w1
    = Ok tt (mkWorld
               (set_sync_logs
                  (λ l, l ++ [new_log ACTION_PULL (get_head_commit_id (repo w1)) w1])
                  (db w1))
               (repo_pull (repo w1)) (S (clock w1))
               ((trace w1 ++ [RepoPull])
                ++ [Stdout "Pull: No changes since last sync"])).
Proof.
  intros Hpast Hrun Hhead.
  assert (commit_id <$> first_by_time_desc (sync_logs (db w1))
          = Some (get_head_commit_id (repo w1))) as Hlast.
  { unfold handle in Hrun. revert Hrun. run.
    set (w0c := mkWorld (db w0) (repo_pull (repo w0)) (clock w0) _).
    destruct (handle_pull fuel w0c) as [[] w0d|e w0d|] eqn:Hpull; [|intros [=]..].
    intros Hpush.
    apply handle_pull_Ok_inv in Hpull as (Hlogs & Hrepo & Hclock).
    assert (first_by_time_desc (sync_logs (db w0d))
            = Some (new_log ACTION_PULL (get_head_commit_id (repo w0c)) w0c)) as Hfirst.
    { rewrite Hlogs. apply first_by_time_desc_snoc. intros y Hy.
      apply Hpast in Hy. exact Hy. }
    destruct (handle_push_outcome w0d) as [(e & w0e & Hraise & _)|(w2 & Hw & Hlog)];
      [congruence|].
    rewrite Hpush in Hlog. pose proof (writes_keep_head writer_keeps_head _ _ Hw) as Hh.
    destruct Hw as (Hdb & Hclock2 & _).
    destruct (has_changes (repo w2)) eqn:Hchanges.
    - rewrite handle_push_log_changes in Hlog by exact Hchanges.
      injection Hlog as ->. cbn. rewrite push_keeps_head, Hdb.
      rewrite first_by_time_desc_snoc; [reflexivity|].
      intros y. rewrite Hlogs, elem_of_app, list_elem_of_singleton. cbn.
      intros [Hy| ->]; [apply Hpast in Hy; cbn in *; lia|cbn in *; lia].
    - rewrite handle_push_log_no_changes in Hlog by exact Hchanges.
      injection Hlog as ->. cbn. rewrite Hdb, Hfirst, Hh, Hrepo. reflexivity. }
  split; [exact Hlast|]. run.
  rewrite (handle_pull_at_last_log_is_noop fuel' _ (get_head_commit_id (repo w1)));
    [reflexivity|exact Hhead|exact Hlast].
Qed.

End CommandTwice.

End Proofs.

(** * The statements on the concrete installation *)

Import Toy.

(** ** The pull watermark *)


(** ** Ingesting an entry *)

Lemma translation_saved_only_when_text_differs_witness :
  _pull_changed_entry Toy.fr (mkEntry "Hello" "Bonjour")
    (Toy.world_at Toy.synced_store Toy.repo_at_A)
  = Ok tt (mkWorld Toy.synced_store Toy.repo_at_A 101 [])
  ∧ ∃ w', _pull_changed_entry Toy.fr (mkEntry "Hello" "Salut")
            (Toy.world_at Toy.synced_store Toy.repo_at_A) = Ok tt w'
          ∧ translations (db w') !! (1, 1) = Some (mkTranslation "Salut" 101).
Proof.
  split.
  - apply (translation_saved_only_when_text_differs Toy.fr (mkEntry "Hello" "Bonjour")
             (Toy.world_at Toy.synced_store Toy.repo_at_A) 1 (mkTranslation "Bonjour" 51));
      reflexivity.
  - eexists. split.
    + apply (translation_saved_only_when_text_differs Toy.fr (mkEntry "Hello" "Salut")
               (Toy.world_at Toy.synced_store Toy.repo_at_A) 1 (mkTranslation "Bonjour" 51));
        [reflexivity|reflexivity|discriminate].
    + reflexivity.
Defined.

(** An entry that no Segment matches, on a Django manager: the
    [AttributeError] of the handler clause leaves the entry's processing. *)
Lemma unrecognised_segment_raises_from_except_clause_witness :
  segments Toy.store !! "Unknown" = None
  ∧ _pull_changed_entry Toy.fr (mkEntry "Unknown" "Inconnu")
      (Toy.world_at Toy.store Toy.repo_unknown_entry)
    = Raise AttributeError (Toy.world_at Toy.store Toy.repo_unknown_entry)
  ∧ for_each [mkEntry "Unknown" "Inconnu"; mkEntry "Hello" "Bonjour"]
      (_pull_changed_entry Toy.fr) (Toy.world_at Toy.store Toy.repo_unknown_entry)
    = Raise AttributeError (Toy.world_at Toy.store Toy.repo_unknown_entry).
Proof.
  split; [reflexivity|].
  destruct (unrecognised_segment_raises_from_except_clause Toy.fr (mkEntry "Unknown" "Inconnu")
              (Toy.world_at Toy.store Toy.repo_unknown_entry) AttributeError)
    as [Hone Hloop]; [reflexivity..|].
  split; [exact Hone|apply Hloop].
Defined.

(** The whole pull of that file: the pull raises and is rolled back, and
    the entry after the unrecognised one ("Hello") is not ingested. *)
Example pull_with_unrecognised_segment :
  ∃ w', _pull 3 (Toy.world_at Toy.store Toy.repo_unknown_entry) = Raise AttributeError w'
        ∧ sync_logs (db w') = []
        ∧ translations (db w') !! (1, 1) = None
        ∧ trace w' = [GetChangedFiles None "cB";
                      LogInfo "Pull: Importing changes in file 'locales/fr/about.po'"].
Proof. eexists. split; [vm_compute; reflexivity|]. repeat split. Qed.

(** If the manager did expose the model's exception class, the same pull
    would return: the unrecognised entry is skipped with a warning and the
    entry after it is ingested. *)
Example pull_with_unrecognised_segment_when_clause_resolves :
  ∃ w', @_pull Repo Pages repository catalog_with_manager_exception codec 3
          (world_at store repo_unknown_entry) = Ok tt w'
        ∧ translations (db w') !! (1, 1) = Some (mkTranslation "Bonjour" 101)
        ∧ (LogWarning "Unrecognised segment 'Unknown'" ∈ trace w').
Proof.
  eexists. split; [vm_compute; reflexivity|]. split; [reflexivity|].
  cbn. do 2 right. left.
Qed.

(** ** Propagation *)

(** [team] is ready, its parent [about] has no French page yet. *)
Lemma parent_not_translated_raises_unbound_local_witness :
  ∃ w', _try_update_resource_translation 1 Toy.team Toy.fr
          (Toy.world_at Toy.store Toy.repo_at_A) = Raise UnboundLocalError w'
        ∧ cms (db w') = cms Toy.store
        ∧ trace w'
          = [LogInfo "Saving translated page for 'Team' in French";
             LogInfo ("Cannot save translated page for 'Team' in French yet as its parent " +:+
                      "must be translated first")].
Proof.
  eexists. split.
  - apply (parent_not_translated_raises_unbound_local 0 Toy.team Toy.fr
             (Toy.world_at Toy.store Toy.repo_at_A)
             (mkSubmission 2 2 20 None None) (cms Toy.store)); reflexivity.
  - split; reflexivity.
Defined.

(** ** Transactions of the pull *)

(** C4 does not hold as stated: the second of two changed files fails
    (the page of [contact] cannot be saved), and with it go the pull's
    log and the Translation that the first file had brought, which a
    pull of the first file alone does create. *)
Lemma pull_failure_undoes_the_log_and_earlier_files :
  (∃ w1, _pull 3 (world_at store repo_one_file) = Ok tt w1
         ∧ translations (db w1) !! (1, 1) = Some (mkTranslation "Bonjour" 101)
         ∧ sync_logs (db w1) = [mkSyncLog 1 ACTION_PULL "cB" 100])
  ∧ ∃ w', _pull 3 (world_at store repo_two_files) = Raise (OtherError "IntegrityError") w'
          ∧ sync_logs (db w') = []
          ∧ sync_log_resources (db w') = []
          ∧ translations (db w') !! (1, 1) = None
          ∧ trace w'
            = [GetChangedFiles None "cB";
               LogInfo "Pull: Importing changes in file 'locales/fr/about.po'";
               LogInfo "Saving translated page for 'About' in French";
               LogInfo "Saving translated page for 'Team' in French";
               LogInfo "Pull: Importing changes in file 'locales/fr/contact.po'";
               LogInfo "Saving translated page for 'Contact' in French"].
Proof.
  split; eexists; (split; [vm_compute; reflexivity|]); repeat split.
Qed.

(** The second of the two files fails in its block.  When it does, the
    log of the pull and the Translation of the first file are in the
    datastore, and so are the SyncLogResource rows of both files; the
    pull ends with the datastore it started from. *)
Lemma pull_is_one_transaction_witness :
  ∃ w1 w2 : World Repo Pages,
    _pull 3 (world_at store repo_two_files)
    = Raise (OtherError "IntegrityError") (mkWorld store (repo w2) (clock w2) (trace w2))
    ∧ sync_logs (db w1) = [mkSyncLog 1 ACTION_PULL "cB" 100]
    ∧ translations (db w1) !! (1, 1) = Some (mkTranslation "Bonjour" 101)
    ∧ translations (db w2) = translations (db w1)
    ∧ sync_log_resources (db w2)
      = [mkSyncLogResource 1 1 (Some 1); mkSyncLogResource 1 3 (Some 1)].
Proof.
  do 2 eexists.
  edestruct (pull_is_one_transaction 3 (world_at store repo_two_files)
               [("locales/fr/about.po", "", "Hello=Bonjour;")]
               "locales/fr/contact.po" "" "Bye=Au revoir;" [])
    as (Hrun & Hlogs & Htr & _ & Hrow).
  - discriminate.
  - reflexivity.
  - vm_compute. reflexivity.
  - vm_compute. reflexivity.
  - split; [exact Hrun|]. split; [exact Hlogs|]. split; [vm_compute; reflexivity|].
    split; [exact Htr|]. exact (Hrow contact fr eq_refl).
Defined.

(** ** [update_po] *)

(** C7 does not hold as stated: the existing file does not parse, the
    parse error is not a [KeyError], and it leaves [update_po], which
    writes nothing. *)
Lemma update_po_unparsable_existing_file_escapes :
  read_file "locales/fr/about.po" repo_unparsable = Returns "garbage"
  ∧ polib_pofile 200 "garbage" = Raises OSError
  ∧ update_po "locales/fr/about.po" "Hello=;" (world_at store repo_unparsable)
    = Raise OSError (world_at store repo_unparsable)
  ∧ ¬ ∃ w', update_po "locales/fr/about.po" "Hello=;" (world_at store repo_unparsable)
            = Ok tt w'.
Proof.
  repeat split. intros [w' Hrun]. vm_compute in Hrun. discriminate.
Qed.

Lemma update_po_cases_witness :
  update_po "locales/fr/about.po" "Hello=;" (world_at store repo_with_header)
  = Ok tt (after_write_file "locales/fr/about.po" "#Last-Translator=Alice;Hello=;"
             (world_at store repo_with_header))
  ∧ update_po "locales/fr/about.po" "Hello=;" (world_at store repo_at_A)
    = Ok tt (after_write_file "locales/fr/about.po" "Hello=;" (world_at store repo_at_A))
  ∧ update_po "locales/fr/about.po" "Hello=;" (world_at store repo_unparsable)
    = Raise OSError (world_at store repo_unparsable).
Proof.
  split; [|split].
  - exact (proj1 (update_po_cases "locales/fr/about.po" "Hello=;"
                    (world_at store repo_with_header))
             "#Last-Translator=Alice;Old=Vieux;" "#Last-Translator=Alice;Old=Vieux;"
             (mkPOFile [("Last-Translator", "Alice")] [mkEntry "Old" "Vieux"])
             (mkPOFile [] [mkEntry "Hello" ""])
             eq_refl eq_refl eq_refl eq_refl).
  - exact (proj1 (proj2 (update_po_cases "locales/fr/about.po" "Hello=;"
                           (world_at store repo_at_A))) eq_refl).
  - apply (proj2 (proj2 (update_po_cases "locales/fr/about.po" "Hello=;"
                           (world_at store repo_unparsable)))
             "garbage" "garbage" OSError); [reflexivity..|discriminate].
Defined.

(** The existing file has a header and an entry of its own ("Old"): the
    header is kept, the entry is not. *)
Lemma update_po_keeps_only_the_metadata_witness :
  update_po "locales/fr/about.po" "Hello=;" (world_at store repo_with_header)
  = Ok tt (after_write_file "locales/fr/about.po" "#Last-Translator=Alice;Hello=;"
             (world_at store repo_with_header))
  ∧ ∃ written_po,
      polib_pofile 200 "#Last-Translator=Alice;Hello=;" = Returns written_po
      ∧ metadata written_po = [("Last-Translator", "Alice")]
      ∧ po_entries written_po = [mkEntry "Hello" ""]
      ∧ (mkEntry "Old" "Vieux" ∉ po_entries written_po).
Proof.
  destruct (update_po_keeps_only_the_metadata "locales/fr/about.po" "Hello=;"
              (world_at store repo_with_header)
              "#Last-Translator=Alice;Old=Vieux;" "#Last-Translator=Alice;Old=Vieux;"
              (mkPOFile [("Last-Translator", "Alice")] [mkEntry "Old" "Vieux"])
              (mkPOFile [] [mkEntry "Hello" ""])) as [Hrun Hread]; [reflexivity..|].
  cbv zeta in Hrun, Hread. split; [exact Hrun|].
  destruct Hread as (written_po & Hparse & Hmeta & Hentries & Hgone); [reflexivity|].
  exists written_po. split; [exact Hparse|]. split; [exact Hmeta|]. split; [exact Hentries|].
  apply Hgone; [left|].
  cbn. rewrite list_elem_of_singleton. discriminate.
Defined.

(** ** The push *)



(** The same submission, files that are already in the tree: no commit,
    the log keeps its empty commit id, and the repository is pushed all
    the same. *)
Example push_without_commit_still_reaches_remote :
  ∃ w', _push (world_at synced_store repo_up_to_date) = Ok tt w'
        ∧ trace w'
          = [WriteFile "templates/about.pot" "Hello=;";
             WriteFile "locales/fr/about.po" "Hello=Bonjour;";
             WriteConfig ["fr"] [("templates/about.pot", "locales/{locale}/about.po")];
             LogInfo ("Push: Not committing anything as recent changes haven't " +:+
                      "affected any translatable content");
             RepoPush]
        ∧ sync_logs (db w')
          = [mkSyncLog 1 ACTION_PULL "cA" 50; mkSyncLog 2 ACTION_PUSH "" 100].
Proof. eexists. split; [vm_compute; reflexivity|]. split; reflexivity. Qed.

(** ** Two syncs in a row *)

Lemma toy_head_not_empty (r : Repo) : get_head_commit_id r ≠ "".
Proof. discriminate. Qed.

Lemma toy_writer_keeps_head (r r' : Repo) :
  writer_step r r' → get_head_commit_id r' = get_head_commit_id r.
Proof. intros Hstep. destruct Hstep; reflexivity. Qed.

Lemma toy_push_keeps_head (r : Repo) :
  get_head_commit_id (repo_push r) = get_head_commit_id r.
Proof. reflexivity. Qed.

(** A first sync imports a file, materialises two pages, pushes three
    submissions and commits; the second adds its PULL log and nothing
    else. *)
Lemma second_sync_adds_only_a_pull_log_witness :
  logs_in_past (world_at store repo_one_file)
  ∧ ∃ w1 w2,
      sync 3 (world_at store repo_one_file) = Ok tt w1
      ∧ get_head_commit_id (repo_pull (repo w1)) = get_head_commit_id (repo w1)
      ∧ final_world (sync 0 w1) = Some w2
      ∧ db w2 = set_sync_logs
                  (λ l, l ++ [new_log ACTION_PULL (get_head_commit_id (repo w1)) w1]) (db w1)
      ∧ translations (db w2) = translations (db w1)
      ∧ submissions (db w2) = submissions (db w1).
Proof.
  assert (logs_in_past (world_at store repo_one_file)) as Hpast.
  { intros x Hx. cbn in Hx. now apply elem_of_nil in Hx. }
  split; [exact Hpast|].
  assert (∃ w1, sync 3 (world_at store repo_one_file) = Ok tt w1) as [w1 Hrun]
    by (eexists; vm_compute; reflexivity).
  destruct (second_sync_adds_only_a_pull_log
              toy_head_not_empty toy_writer_keeps_head toy_push_keeps_head
              3 0 _ w1 Hpast Hrun eq_refl)
    as (w2 & Hfinal & Hdb & Htr & Hsubs & _).
  exists w1, w2. repeat split; assumption.
Defined.

(** The logs after the two syncs: the pull of [cB], the push that
    committed [cB+], and the second pull, at the watermark. *)
Example logs_after_two_syncs :
  ∃ w1 w2,
    sync 3 (world_at store repo_one_file) = Ok tt w1
    ∧ sync 0 w1 = Ok tt w2
    ∧ sync_logs (db w2)
      = [mkSyncLog 1 ACTION_PULL "cB" 100; mkSyncLog 2 ACTION_PUSH "cB+" 102;
         mkSyncLog 3 ACTION_PULL "cB+" 104]
    ∧ translations (db w2) !! (1, 1) = Some (mkTranslation "Bonjour" 101).
Proof.
  do 2 eexists. split; [vm_compute; reflexivity|]. split; [vm_compute; reflexivity|].
  split; reflexivity.
Qed.


(** * Further statements on the concrete installation *)

(** ** Entries *)

Lemma first_translation_is_created_witness :
  ∃ w', _pull_changed_entry fr (mkEntry "Hello" "Bonjour") (world_at store repo_at_A)
        = Ok tt w'
        ∧ translations (db w') !! (1, 1) = Some (mkTranslation "Bonjour" 100)
        ∧ translations (db w') !! (2, 1) = None.
Proof.
  destruct (first_translation_is_created fr (mkEntry "Hello" "Bonjour")
              (world_at store repo_at_A) 1) as (w' & Hrun & Hnew & Hother & _);
    [reflexivity..|].
  exists w'. split; [exact Hrun|]. split; [exact Hnew|].
  rewrite Hother by discriminate. reflexivity.
Defined.

Lemma reingesting_an_entry_changes_nothing_witness :
  ∃ w1 w2, _pull_changed_entry fr (mkEntry "Hello" "Salut")
             (world_at synced_store repo_at_A) = Ok tt w1
           ∧ _pull_changed_entry fr (mkEntry "Hello" "Salut") w1 = Ok tt w2
           ∧ db w2 = db w1.
Proof.
  destruct (reingesting_an_entry_changes_nothing fr (mkEntry "Hello" "Salut")
              (world_at synced_store repo_at_A) 1)
    as (w1 & w2 & t & H1 & _ & _ & H2 & Hdb); [reflexivity|].
  exists w1, w2. auto.
Defined.

(** ** Propagation *)

(** No submission for [team] in [synced_store]; the page of [about]
    exists there already; the page of [contact] cannot be saved. *)
Lemma propagation_without_a_new_page_witness :
  _try_update_resource_translation 1 team fr (world_at synced_store repo_at_A)
  = Ok tt (world_at synced_store repo_at_A)
  ∧ (∃ w', _try_update_resource_translation 1 about fr (world_at synced_store repo_at_A)
           = Ok tt w'
           ∧ trace w' = [LogInfo "Saving translated page for 'About' in French"])
  ∧ ∃ w', _try_update_resource_translation 1 contact fr (world_at store repo_at_A)
          = Raise (OtherError "IntegrityError") w'.
Proof.
  split; [|split].
  - apply (proj1 (propagation_without_a_new_page 0 team fr
                    (world_at synced_store repo_at_A))). reflexivity.
  - eexists. split.
    + apply (proj1 (proj2 (propagation_without_a_new_page 0 about fr
                             (world_at synced_store repo_at_A)))
               (mkSubmission 1 1 10 None None) (mkRevision 10 1) (cms synced_store));
        reflexivity.
    + reflexivity.
  - eexists.
    apply (proj2 (proj2 (propagation_without_a_new_page 0 contact fr
                           (world_at store repo_at_A)))
             (mkSubmission 3 3 30 None None) (OtherError "IntegrityError") (cms store));
      [reflexivity..|discriminate].
Defined.

(** ** The pull *)

Lemma pull_records_one_resource_per_changed_file_witness :
  ∃ w', _pull 3 (world_at store repo_one_file) = Ok tt w'
        ∧ sync_log_resources (db w') = [mkSyncLogResource 1 1 (Some 1)].
Proof.
  assert (∃ w', _pull 3 (world_at store repo_one_file) = Ok tt w') as [w' Hrun]
    by (eexists; vm_compute; reflexivity).
  destruct (pull_records_one_resource_per_changed_file 3 _ _ Hrun)
    as (rows & Hrows & _).
  exists w'. split; [exact Hrun|].
  clear Hrows rows. vm_compute in Hrun. injection Hrun as <-. reflexivity.
Defined.

(** The file of the first position is imported, the second is in a
    language the catalogue does not have. *)
Lemma pull_fails_on_an_unrecognised_file_witness :
  ∃ w1 : World Repo Pages,
    _pull 3 (world_at store repo_unknown_file_last)
    = Raise UnrecognizedFileError
        (mkWorld store repo_unknown_file_last (clock w1)
           (trace w1 ++ [LogInfo "Pull: Importing changes in file 'locales/de/about.po'"]))
    ∧ translations (db w1) !! (1, 1) = Some (mkTranslation "Bonjour" 101)
    ∧ sync_logs (db w1) = [mkSyncLog 1 ACTION_PULL "cB" 100]
    ∧ length (sync_log_resources (db w1)) = 1.
Proof.
  eexists.
  edestruct (pull_fails_on_an_unrecognised_file 3 (world_at store repo_unknown_file_last)
               [("locales/fr/about.po", "", "Hello=Bonjour;")]
               "locales/de/about.po" "" "Hello=Hallo;" [])
    as (Hrun & Hlogs & Hrows).
  - discriminate.
  - reflexivity.
  - vm_compute. reflexivity.
  - vm_compute. reflexivity.
  - split; [exact Hrun|]. split; [vm_compute; reflexivity|]. split; [exact Hlogs|exact Hrows].
Defined.

Lemma pull_after_pull_is_noop_witness :
  ∃ w1 w2, _pull 3 (world_at store repo_one_file) = Ok tt w1
           ∧ _pull 0 w1 = Ok tt w2
           ∧ translations (db w2) = translations (db w1)
           ∧ trace w2 = trace w1 ++ [LogInfo "Pull: No changes since last sync"].
Proof.
  assert (∃ w1, _pull 3 (world_at store repo_one_file) = Ok tt w1) as [w1 Hrun]
    by (eexists; vm_compute; reflexivity).
  destruct (pull_after_pull_is_noop 3 0 (world_at store repo_one_file) w1) as [_ Hnoop].
  - intros x Hx. cbn in Hx. now apply elem_of_nil in Hx.
  - discriminate.
  - exact Hrun.
  - exists w1. eexists. split; [exact Hrun|]. split; [exact Hnoop|]. split; reflexivity.
Defined.

(** ** The push *)

Lemma push_writes_the_files_then_the_manifest_witness :
  ∃ w' written rest,
    _push (world_at store repo_at_A) = Ok tt w'
    ∧ trace w'
      = write_events written
        ++ [WriteConfig ["fr"]
              [("templates/about.pot", "locales/{locale}/about.po");
               ("templates/about/team.pot", "locales/{locale}/about/team.po");
               ("templates/contact.pot", "locales/{locale}/contact.po")]]
        ++ rest
    ∧ written.*1
      = ["templates/about.pot"; "locales/fr/about.po";
         "templates/about/team.pot"; "locales/fr/about/team.po";
         "templates/contact.pot"; "locales/fr/contact.po"].
Proof.
  assert (∃ w', _push (world_at store repo_at_A) = Ok tt w') as [w' Hrun]
    by (eexists; vm_compute; reflexivity).
  destruct (push_writes_the_files_then_the_manifest _ _ Hrun)
    as (written & rest & Htrace & Hnames & _).
  exists w', written, rest. split; [exact Hrun|]. split; [exact Htrace|exact Hnames].
Defined.

(** In [mixed_store] submission 1 was pushed before, 2 is new and 4 is
    stale: only 2 is marked. *)
Lemma push_stamps_only_new_current_submissions_witness :
  ∃ w', _push (world_at mixed_store repo_at_A) = Ok tt w'
        ∧ submissions (db w') !! 0 = Some (mkSubmission 1 1 10 (Some 7) (Some 9))
        ∧ submissions (db w') !! 1 = Some (mkSubmission 2 2 20 (Some 101) (Some 10))
        ∧ submissions (db w') !! 2 = Some (mkSubmission 4 1 5 None None).
Proof.
  assert (∃ w', _push (world_at mixed_store repo_at_A) = Ok tt w') as [w' Hrun]
    by (eexists; vm_compute; reflexivity).
  destruct (push_stamps_only_new_current_submissions _ _ Hrun) as [_ Hrows].
  exists w'. split; [exact Hrun|]. split; [|split].
  - apply (proj1 (Hrows 0 _ eq_refl)). left. discriminate.
  - apply (proj2 (Hrows 1 (mkSubmission 2 2 20 None None) eq_refl)); [reflexivity|].
    apply (bool_decide_unpack _). vm_compute. exact I.
  - apply (proj1 (Hrows 2 _ eq_refl)). right.
    apply (bool_decide_unpack _). vm_compute. exact I.
Defined.

Lemma push_records_one_resource_per_new_submission_witness :
  ∃ w', _push (world_at mixed_store repo_at_A) = Ok tt w'
        ∧ sync_log_resources (db w') = [mkSyncLogResource 10 2 None].
Proof.
  assert (∃ w', _push (world_at mixed_store repo_at_A) = Ok tt w') as [w' Hrun]
    by (eexists; vm_compute; reflexivity).
  exists w'. split; [exact Hrun|].
  rewrite (push_records_one_resource_per_new_submission _ _ Hrun).
  vm_compute. reflexivity.
Defined.


(** ** [sync] *)

(** The pull returns, the push raises on the unparsable file: the log of
    the pull stays. *)
Lemma sync_failure_keeps_a_finished_pull_witness :
  ∃ e w', sync 3 (world_at store repo_unparsable) = Raise e w'
          ∧ sync_logs (db w') = [mkSyncLog 1 ACTION_PULL "cA" 100].
Proof.
  assert (∃ e w', sync 3 (world_at store repo_unparsable) = Raise e w') as (e & w' & Hrun)
    by (do 2 eexists; vm_compute; reflexivity).
  exists e, w'. split; [exact Hrun|].
  destruct (sync_failure_keeps_a_finished_pull 3 _ _ _ Hrun)
    as [[_ Hdb]|(w1 & _ & _ & _ & Hlogs)].
  - exfalso. vm_compute in Hrun. injection Hrun as <- <-. discriminate Hdb.
  - exact Hlogs.
Defined.

(** ** The command *)

(** [mixed_store], files that differ from the tree: the commit, one log
    with the new head, and both current submissions marked, the one
    pushed before included; the stale one is not. *)
Lemma command_push_logs_only_a_commit_witness :
  ∃ w', handle_push (world_at mixed_store repo_at_A) = Ok tt w'
        ∧ sync_logs (db w')
          = [mkSyncLog 9 ACTION_PUSH "cA" 7; mkSyncLog 10 ACTION_PUSH "cA+" 100]
        ∧ submissions (db w')
          = [mkSubmission 1 1 10 (Some 101) (Some 10);
             mkSubmission 2 2 20 (Some 101) (Some 10);
             mkSubmission 4 1 5 None None].
Proof.
  assert (∃ w', handle_push (world_at mixed_store repo_at_A) = Ok tt w') as [w' Hrun]
    by (eexists; vm_compute; reflexivity).
  destruct (command_push_logs_only_a_commit _ _ Hrun) as (r2 & evs & _ & _ & _).
  exists w'. split; [exact Hrun|].
  vm_compute in Hrun. injection Hrun as <-. split; reflexivity.
Defined.

(** With the tree up to date the command's push leaves the datastore as
    it was, although the submission of [synced_store] was never pushed. *)
Example command_push_without_changes :
  ∃ w', handle_push (world_at synced_store repo_up_to_date) = Ok tt w'
        ∧ db w' = synced_store
        ∧ (RepoPush ∉ trace w').
Proof.
  eexists. split; [vm_compute; reflexivity|]. split; [reflexivity|]. cbn.
  rewrite !elem_of_cons, elem_of_nil. intros [?|[?|[?|[?|?]]]]; done.
Qed.

Lemma command_rerun_pulls_nothing_witness :
  ∃ w1 w2,
    handle 3 (world_at store repo_one_file) = Ok tt w1
    ∧ (emit RepoPull;; modify_repo repo_pull;; handle_pull 0) w1 = Ok tt w2
    ∧ translations (db w2) = translations (db w1).
Proof.
  assert (∃ w1, handle 3 (world_at store repo_one_file) = Ok tt w1) as [w1 Hrun]
    by (eexists; vm_compute; reflexivity).
  destruct (command_rerun_pulls_nothing toy_writer_keeps_head toy_push_keeps_head
              3 0 (world_at store repo_one_file) w1) as [_ Hnoop].
  - intros x Hx. cbn in Hx. now apply elem_of_nil in Hx.
  - exact Hrun.
  - reflexivity.
  - exists w1. eexists. split; [exact Hrun|]. split; [exact Hnoop|]. reflexivity.
Defined.
